(** * MusicAPI: chord-to-MIDI synthesis and the pedalboard mastering script

    A shallow embedding of [src/main.py]: the chord table and the MIDI note
    generation of [ChordRecognizer], and the sample-domain stages of
    [AudioMastering.process_audio_with_pedalboard] ([stereo_widen],
    [reduce_piano_volume] and the fixed [Pedalboard]).

    Conventions.
    - A Python call either returns a value or raises; this is the type
      [result], and statements in sequence are [bind]s, so that an exception
      aborts everything after it.
    - Python and NumPy floating-point numbers are idealised as real numbers
      ([R]): rounding is not modelled.
    - A NumPy array of shape (channels, frames), as [AudioFile.read] returns
      it, is a list of rows, each row the samples of one channel. *)

From Stdlib Require Import ZArith List String Ascii Reals Lra Lia Permutation.
From stdpp Require Import base option list strings gmap.

Local Open Scope string_scope.
Local Open Scope list_scope.
Local Open Scope Z_scope.

(** ** Python results *)

Module Py.

(** The exceptions that the modelled calls can raise. *)
Inductive exn : Type :=
| ValueError (msg : string)
| TypeError (msg : string)
| ZeroDivisionError (msg : string)
| ParameterError (msg : string).     (* librosa.util.exceptions *)

Inductive result (A : Type) : Type :=
| Ok (a : A)
| Raise (e : exn).
Arguments Ok {A} a.
Arguments Raise {A} e.

Definition bind {A B} (r : result A) (k : A -> result B) : result B :=
  match r with
  | Ok a => k a
  | Raise e => Raise e
  end.

Definition raises {A} (r : result A) : Prop :=
  exists e, r = Raise e.

End Py.

Import Py.

(** Sequencing is written with stdpp's monad notation [x ← r; k]. *)
#[global] Instance result_ret : MRet result := @Ok.
#[global] Instance result_bind : MBind result :=
  fun A B k r => Py.bind r k.

(** ** [librosa.note_to_midi]

    The source calls [librosa.note_to_midi(note_name)] on every table entry.
    The function belongs to the librosa package, not to this repository; it is
    embedded here after its documented grammar
    [^[A-Ga-g][#b!]*([+-]?\d+)?([+-]\d+)?$] (note, accidentals, octave, cents)
    and its formula [12 * (octave + 1) + pitch_map[note] + offset + cents],
    rounded to the nearest integer (ties to even).  librosa's own examples:
    [note_to_midi('C') = 12], [note_to_midi('C#3') = 49],
    [note_to_midi('Bb-1') = 10] (a sign after the accidentals belongs to the
    octave).  Strings are byte strings here, so the Unicode accidental glyphs
    that recent librosa versions also accept are not recognised. *)

Module Librosa.

Definition pitch_map (c : ascii) : option Z :=
  match c with
  | "C" | "c" => Some 0
  | "D" | "d" => Some 2
  | "E" | "e" => Some 4
  | "F" | "f" => Some 5
  | "G" | "g" => Some 7
  | "A" | "a" => Some 9
  | "B" | "b" => Some 11
  | _ => None
  end%char.

Definition acc_map (c : ascii) : option Z :=
  match c with
  | "#" => Some 1
  | "b" => Some (-1)
  | "!" => Some (-1)
  | _ => None
  end%char.

(** [\d]: the characters ["0"] to ["9"] (codes 48 to 57) and their value. *)
Definition digit (c : ascii) : option Z :=
  let code := Z.of_nat (nat_of_ascii c) in
  if Z.leb 48 code && Z.leb code 57 then Some (code - 48) else None.

(** [[#b!]*], greedy: the sum of the accidentals read and the rest. *)
Fixpoint accidentals (s : string) (offset : Z) : Z * string :=
  match s with
  | String c s' =>
      match acc_map c with
      | Some d => accidentals s' (offset + d)
      | None => (offset, s)
      end
  | EmptyString => (offset, s)
  end.

(** The digits of [\d+] after the first one: [acc] is the value read so
    far. *)
Fixpoint more_digits (s : string) (acc : Z) : Z * string :=
  match s with
  | String c s' =>
      match digit c with
      | Some d => more_digits s' (10 * acc + d)
      | None => (acc, s)
      end
  | EmptyString => (acc, s)
  end.

(** [\d+] *)
Definition digits (s : string) : option (Z * string) :=
  match s with
  | String c s' =>
      match digit c with
      | Some d => Some (more_digits s' d)
      | None => None
      end
  | EmptyString => None
  end.

(** [[+-]\d+], read as [int] reads it. *)
Definition signed (s : string) : option (Z * string) :=
  match s with
  | String "+" s' => digits s'
  | String "-" s' =>
      match digits s' with
      | Some (n, rest) => Some (- n, rest)
      | None => None
      end
  | _ => None
  end.

(** [([+-]?\d+)?]: a missing octave counts as 0. *)
Definition octave (s : string) : Z * string :=
  match signed s with
  | Some r => r
  | None =>
      match digits s with
      | Some r => r
      | None => (0, s)
      end
  end.

(** [([+-]\d+)?]: a missing cents part counts as 0. *)
Definition cents (s : string) : Z * string :=
  match signed s with
  | Some r => r
  | None => (0, s)
  end.

(** [$] matches at the end of the string and before a final newline. *)
Definition at_end (s : string) : bool :=
  match s with
  | EmptyString => true
  | String c EmptyString => Ascii.eqb c "010"%char
  | _ => false
  end.

(** [int(np.round(n + c / 100))]: nearest integer, ties to even. *)
Definition round_cents (n c : Z) : Z :=
  let q := c / 100 in
  let r := c mod 100 in
  if Z.ltb r 50 then n + q
  else if Z.ltb 50 r then n + q + 1
  else if Z.even (n + q) then n + q else n + q + 1.

Definition note_to_midi (note : string) : result Z :=
  match note with
  | String c s =>
      match pitch_map c with
      | Some pitch =>
          let '(offset, s1) := accidentals s 0 in
          let '(oct, s2) := octave s1 in
          let '(cts, s3) := cents s2 in
          if at_end s3
          then Ok (round_cents (12 * (oct + 1) + pitch + offset) cts)
          else Raise (ParameterError ("Improper note format: " ++ note)%string)
      | None => Raise (ParameterError ("Improper note format: " ++ note)%string)
      end
  | EmptyString => Raise (ParameterError ("Improper note format: " ++ note)%string)
  end.

(** Whether [note_to_midi] accepts the name. *)
Definition parses (note_name : string) : bool :=
  match note_to_midi note_name with
  | Ok _ => true
  | Raise _ => false
  end.

End Librosa.

(** ** Times

    Start and end times are Python floats; the only thing the code does with
    them besides copying is the comparison [end < start] of
    [pretty_midi.Note].  [time_ltb a b] is the test [a < b]. *)

Class TimeLt (Time : Type) := time_ltb : Time -> Time -> bool.

#[global] Instance nat_time : TimeLt nat := Nat.ltb.

#[global] Instance R_time : TimeLt R :=
  fun a b => if Rlt_dec a b then true else false.

(** ** [class ChordRecognizer] *)

Module ChordRecognizer.

(** The entries of the dictionary literal of [chord_to_midi_notes]. *)
Definition note_mapping_items : list (string * list string) :=
    [ ("C:maj", ["C4"; "E4"; "G4"]);
      ("C:min", ["C4"; "E-4"; "G4"]);
      ("D:maj", ["D4"; "F#4"; "A4"]);
      ("D:min", ["D4"; "F4"; "A4"]);
      ("E:maj", ["E4"; "G#4"; "B4"]);
      ("E:min", ["E4"; "G4"; "B4"]);
      ("F:maj", ["F4"; "A4"; "C5"]);
      ("F:min", ["F4"; "A-4"; "C5"]);
      ("G:maj", ["G4"; "B4"; "D5"]);
      ("G:min", ["G4"; "B-4"; "D5"]);
      ("A:maj", ["A4"; "C#5"; "E5"]);
      ("A:min", ["A4"; "C5"; "E5"]);
      ("B:maj", ["B4"; "D#5"; "F#5"]);
      ("B:min", ["B4"; "D5"; "F#5"]) ].

Definition note_mapping : gmap string (list string) :=
  list_to_map note_mapping_items.

(** [note_mapping.get(chord_name, [])] *)
Definition chord_to_midi_notes (chord_name : string) : list string :=
  default [] (note_mapping !! chord_name).

Section Synthesis.

(** Start and end times are copied from the chord to its notes and
    compared once, when a note is built. *)
Context {Time : Type} `{TimeLt Time}.

(** [pretty_midi.Note]; [end] is a keyword, hence [end_]. *)
Record Note : Type := MkNote {
  velocity : Z;
  pitch : Z;
  start : Time;
  end_ : Time
}.

(** [pretty_midi.Instrument] *)
Record Instrument : Type := MkInstrument {
  program : Z;
  notes : list Note
}.

(** One element of [self.chords]: [(chord[0], chord[1], chord[2])]. *)
Definition Chord : Type := Time * Time * string.

(** The only instrument object a recognizer ever holds is
    [self.instrument_chords]; [self.midi_chords.instruments] is a list of
    references to it, not of copies. *)
Inductive instrument_ref : Type := SelfInstrumentChords.

Record t : Type := MkRecognizer {
  audio_file : string;
  chords : option (list Chord);            (* [None] until recognized *)
  midi_chords : list instrument_ref;       (* [PrettyMIDI().instruments] *)
  instrument_chords : Instrument
}.

(** [__init__] *)
Definition init (audio_file : string) : t :=
  {| audio_file := audio_file;
     chords := None;
     midi_chords := [];
     instrument_chords := {| program := 0; notes := [] |} |}.

(** [recognize_chords]: [autochord.recognize] is an external model; its
    answer for the file is the argument [recognized]. *)
Definition recognize_chords (recognized : list Chord) (self : t) : t :=
  {| audio_file := audio_file self;
     chords := Some recognized;
     midi_chords := midi_chords self;
     instrument_chords := instrument_chords self |}.

(** [pretty_midi.Note(velocity, pitch, start, end)]: the constructor
    refuses a note that ends before it starts. *)
Definition new_note (velocity pitch : Z) (start_time end_time : Time)
    : result Note :=
  if time_ltb end_time start_time
  then Raise (ValueError "Note end time must be greater than start time")
  else Ok {| velocity := velocity; pitch := pitch;
             start := start_time; end_ := end_time |}.

(** A chord whose end time is before its start time. *)
Definition reversed (c : Chord) : bool := time_ltb c.1.2 c.1.1.

(** The inner loop [for note_name in chord_notes], on the list
    [self.instrument_chords.notes]: the pitch is resolved first, then the
    note is built and appended. *)
Fixpoint append_notes (start_time end_time : Time)
    (chord_notes : list string) (ns : list Note) : result (list Note) :=
  match chord_notes with
  | [] => Ok ns
  | note_name :: rest =>
      p ← Librosa.note_to_midi note_name;
      midi_note ← new_note 100 p start_time end_time;
      append_notes start_time end_time rest (ns ++ [midi_note])
  end.

(** The outer loop [for chord in self.chords]. *)
Fixpoint for_chords (cs : list Chord) (ns : list Note)
    : result (list Note) :=
  match cs with
  | [] => Ok ns
  | (start_time, end_time, chord_name) :: rest =>
      if String.eqb chord_name "N"
      then for_chords rest ns
      else
        let chord_notes := chord_to_midi_notes chord_name in
        ns' ← append_notes start_time end_time chord_notes ns;
        for_chords rest ns'
  end.

(** [generate_midi]: the recognizer after the call.  Iterating over
    [None] raises [TypeError]. *)
Definition generate_midi (self : t) : result t :=
  match chords self with
  | None => Raise (TypeError "'NoneType' object is not iterable")
  | Some cs =>
      ns ← for_chords cs (notes (instrument_chords self));
      Ok {| audio_file := audio_file self;
            chords := chords self;
            midi_chords := midi_chords self ++ [SelfInstrumentChords];
            instrument_chords :=
              {| program := program (instrument_chords self);
                 notes := ns |} |}
  end.

(** What [save_midi] hands to the writer: the notes of every instrument
    listed in [self.midi_chords.instruments], each reference resolved to
    the one shared instrument. *)
Definition track_notes (self : t) : list Note :=
  flat_map (fun _ : instrument_ref => notes (instrument_chords self))
           (midi_chords self).

(** [synthesize(timeline)] of the specification: a new recognizer whose
    chords are [timeline], then [generate_midi]. *)
Definition synthesize (audio_file : string) (timeline : list Chord)
    : result (list Note) :=
  self ← generate_midi (recognize_chords timeline (init audio_file));
  Ok (notes (instrument_chords self)).

(** The events of one chord, as the specification words them: one event
    per pitch name of the chord, in order, with the pitch that
    [note_to_midi] gives, the times of the chord and velocity 100. *)
Definition events_of_chord (c : Chord) (evs : list Note) : Prop :=
  Forall2
    (fun note_name ev =>
       Librosa.note_to_midi note_name = Ok (pitch ev) /\
       start ev = c.1.1 /\ end_ ev = c.1.2 /\ velocity ev = 100)
    (chord_to_midi_notes c.2) evs.

End Synthesis.

Arguments Note : clear implicits.
Arguments Instrument : clear implicits.
Arguments Chord : clear implicits.
Arguments t : clear implicits.

End ChordRecognizer.

Import ChordRecognizer.

(** ** NumPy arrays

    The slices and element-wise operations that the mastering script uses, on
    arrays of shape (channels, frames). *)

Module Numpy.

Definition array : Type := list (list R).

Section Slices.
Context {A : Type}.

(** The elements at positions [skip], [skip + gap + 1],
    [skip + 2 * (gap + 1)], ... *)
Fixpoint strided_from (skip gap : nat) (l : list A) : list A :=
  match l with
  | [] => []
  | x :: l' =>
      match skip with
      | O => x :: strided_from gap gap l'
      | S k => strided_from k gap l'
      end
  end.

(** [l[start::step]] along the first axis, for [step >= 1]. *)
Definition slice_step (start step : nat) (l : list A) : list A :=
  strided_from start (step - 1) l.

(** Overwrites the positions that [strided_from] selects with the
    elements of [src], in order; [None] when [src] has too few or too
    many elements. *)
Fixpoint assign_from (skip gap : nat) (dst src : list A)
    : option (list A) :=
  match dst with
  | [] => match src with [] => Some [] | _ :: _ => None end
  | d :: dst' =>
      match skip with
      | O =>
          match src with
          | [] => None
          | x :: src' => cons x <$> assign_from gap gap dst' src'
          end
      | S k => cons d <$> assign_from k gap dst' src
      end
  end.

(** [dst[start::step] = src]: the array after the assignment.  A value of
    one row is broadcast over the selected rows; any other row count must
    be the number of rows selected. *)
Definition set_slice_step (start step : nat) (dst src : list A)
    : result (list A) :=
  let selected := length (slice_step start step dst) in
  let src' :=
    match src with
    | [row] => replicate selected row
    | _ => src
    end in
  match assign_from start (step - 1) dst src' with
  | Some l => Ok l
  | None => Raise (ValueError "could not broadcast input array")
  end.

End Slices.

Local Open Scope R_scope.

(** [a * k] for a scalar [k]. *)
Definition scale (a : array) (k : R) : array :=
  map (map (fun x => x * k)) a.

(** [np.empty_like(a)]: the shape of [a]; the cell at row [i], column [j]
    holds whatever [uninitialised i j] was in memory. *)
Definition empty_like (uninitialised : nat -> nat -> R) (a : array)
    : array :=
  imap (fun i row => imap (fun j _ => uninitialised i j) row) a.

Definition shape (a : array) : list nat := map length a.

(** [a - b] for arrays of one shape, the only case the script produces:
    [scipy.signal.lfilter] keeps the shape of its input.  NumPy would
    broadcast some pairs of different shapes; broadcasting is not modelled
    and every other pair of shapes is refused here. *)
Definition sub (a b : array) : result array :=
  if bool_decide (shape a = shape b)
  then Ok (zip_with (zip_with Rminus) a b)
  else Raise (ValueError "operands could not be broadcast together").

End Numpy.

(** ** [scipy.signal.butter]

    [butter(N, [low, high], btype='band')] belongs to SciPy.  Its argument
    checks are embedded as SciPy documents them for digital filters: every
    critical frequency is positive, [Wn[0] < Wn[1]], and every critical
    frequency is below 1 (the Nyquist frequency); each violation raises
    [ValueError].  The design of the coefficients [(b, a)] itself is the
    parameter [design]. *)

Module Scipy.

Local Open Scope R_scope.

Definition coefficients : Type := list R * list R.

Definition butter_band (design : nat -> R -> R -> coefficients)
    (N : nat) (low high : R) : result coefficients :=
  if Rle_dec low 0 then
    Raise (ValueError "filter critical frequencies must be greater than 0")
  else if Rle_dec high 0 then
    Raise (ValueError "filter critical frequencies must be greater than 0")
  else if Rlt_dec low high then
    if Rle_dec 1 high then
      Raise (ValueError
               "Digital filter critical frequencies must be 0 < Wn < 1")
    else Ok (design N low high)
  else Raise (ValueError "Wn[0] must be less than Wn[1]").

End Scipy.

(** ** [pedalboard] *)

Module Pedalboard.

(** The plugin objects that the script constructs. *)
Inductive Plugin : Type :=
| HighpassFilter (cutoff_frequency_hz : R)
| Compressor (threshold_db ratio : R)
| Limiter (threshold_db : R)
| Reverb (room_size wet_level : R)
| Gain (gain_db : R).

(** [Pedalboard(plugins)(audio, sample_rate)]: the plugins process the
    buffer one after the other; [process] is the native code of a single
    plugin. *)
Fixpoint call (process : Plugin -> Numpy.array -> R -> result Numpy.array)
    (plugins : list Plugin) (audio : Numpy.array) (sample_rate : R)
    : result Numpy.array :=
  match plugins with
  | [] => Ok audio
  | p :: rest =>
      out ← process p audio sample_rate;
      call process rest out sample_rate
  end.

End Pedalboard.

(** ** [class AudioMastering] *)

Module AudioMastering.

Local Open Scope R_scope.

(** Audio files by path: the buffer and its sample rate. *)
Abbreviation files := (gmap string (Numpy.array * R)).

Section Pipeline.

(** The external code the script runs: the native plugins, the filter
    design and [scipy.signal.lfilter]; and the contents of memory that
    [np.empty_like] exposes. *)
Variable plugin_process :
  Pedalboard.Plugin -> Numpy.array -> R -> result Numpy.array.
Variable butter_design : nat -> R -> R -> Scipy.coefficients.
Variable lfilter :
  list R -> list R -> Numpy.array -> result Numpy.array.
Variable uninitialised : nat -> nat -> R.

(** [stereo_widen(audio, width=1.2)] *)
Definition stereo_widen (audio : Numpy.array) (width : R)
    : result Numpy.array :=
  let left_channel := Numpy.scale (Numpy.slice_step 0 2 audio) width in
  let right_channel := Numpy.scale (Numpy.slice_step 1 2 audio) width in
  let widened_audio := Numpy.empty_like uninitialised audio in
  widened_audio ← Numpy.set_slice_step 0 2 widened_audio left_channel;
  widened_audio ← Numpy.set_slice_step 1 2 widened_audio right_channel;
  Ok widened_audio.

(** [reduce_piano_volume(audio, sample_rate, freq_low=200,
    freq_high=2000, reduction_db=-18)] *)
Definition reduce_piano_volume (audio : Numpy.array) (sample_rate : R)
    (freq_low freq_high reduction_db : R) : result Numpy.array :=
  let nyquist := 0.5 * sample_rate in
  if Req_dec_T nyquist 0
  then Raise (ZeroDivisionError "float division by zero")
  else
    let low := freq_low / nyquist in
    let high := freq_high / nyquist in
    '(b, a) ← Scipy.butter_band butter_design 1 low high;
    filtered_audio ← lfilter b a audio;
    let gain_reduction := Rpower 10 (reduction_db / 20) in
    Numpy.sub audio (Numpy.scale filtered_audio gain_reduction).

(** The [Pedalboard] literal of the script. *)
Definition board : list Pedalboard.Plugin :=
  [ Pedalboard.HighpassFilter 100;
    Pedalboard.Compressor (-20) 4;
    Pedalboard.Limiter (-0.1);
    Pedalboard.Reverb 0.3 0.2;
    Pedalboard.Gain 3 ].

(** The three assignments to [processed_audio]. *)
Definition process_audio (audio : Numpy.array) (sample_rate : R)
    : result Numpy.array :=
  processed_audio ← Pedalboard.call plugin_process board audio sample_rate;
  processed_audio ← stereo_widen processed_audio 1.2;
  reduce_piano_volume processed_audio sample_rate 200 2000 (-18).

(** [process_audio_with_pedalboard(input_path, output_path)]: the files
    after the call.  The output file is opened only after the three
    stages have returned. *)
Definition process_audio_with_pedalboard (fs : files)
    (input_path output_path : string) : result files :=
  match fs !! input_path with
  | None => Raise (ValueError "Failed to open audio file")
  | Some (audio, sample_rate) =>
      processed_audio ← process_audio audio sample_rate;
      Ok (<[output_path := (processed_audio, sample_rate)]> fs)
  end.

End Pipeline.

End AudioMastering.

(** ** The effect chain of the specification

    [EffectStep], [EffectChain] and [apply] follow the words of the
    specification (sections 3 and 4.3): a chain is a list of tagged steps and
    [apply] threads the buffer through the steps in the given order, stopping
    at the first step that fails.  What a single step does is the argument
    [run_step]. *)

Module EffectChain.

(** The band step carries the three parameters that [reduce_piano_volume]
    takes; the filter order is not among them, the script fixes it to 1. *)
Inductive EffectStep : Type :=
| HighPass (cutoff : R)
| Compressor (threshold_db ratio : R)
| Limiter (threshold_db : R)
| Reverb (room_size wet_level : R)
| Gain (gain_db : R)
| StereoWiden (width : R)
| BandAttenuate (low high attenuation_db : R).

Definition t : Type := list EffectStep.

Fixpoint apply
    (run_step : EffectStep -> Numpy.array -> R -> result Numpy.array)
    (chain : t) (buffer : Numpy.array) (sample_rate : R)
    : result Numpy.array :=
  match chain with
  | [] => Ok buffer
  | step :: rest =>
      buffer' ← run_step step buffer sample_rate;
      apply run_step rest buffer' sample_rate
  end.

(** The order the specification gives for the default mastering
    configuration, with the parameters of the script. *)
Definition default_chain : t :=
  [ HighPass 100; Compressor (-20) 4; Limiter (-0.1); Reverb 0.3 0.2;
    Gain 3; StereoWiden 1.2; BandAttenuate 200 2000 (-18) ]%R.

Section SourceSteps.

Variable plugin_process :
  Pedalboard.Plugin -> Numpy.array -> R -> result Numpy.array.
Variable butter_design : nat -> R -> R -> Scipy.coefficients.
Variable lfilter :
  list R -> list R -> Numpy.array -> result Numpy.array.
Variable uninitialised : nat -> nat -> R.

(** The code of the script that stands behind each step. *)
Definition source_step (step : EffectStep) (buffer : Numpy.array)
    (sample_rate : R) : result Numpy.array :=
  match step with
  | HighPass c =>
      plugin_process (Pedalboard.HighpassFilter c) buffer sample_rate
  | Compressor th r =>
      plugin_process (Pedalboard.Compressor th r) buffer sample_rate
  | Limiter th =>
      plugin_process (Pedalboard.Limiter th) buffer sample_rate
  | Reverb rs wl =>
      plugin_process (Pedalboard.Reverb rs wl) buffer sample_rate
  | Gain g =>
      plugin_process (Pedalboard.Gain g) buffer sample_rate
  | StereoWiden w =>
      AudioMastering.stereo_widen uninitialised buffer w
  | BandAttenuate lo hi db =>
      AudioMastering.reduce_piano_volume butter_design lfilter
        buffer sample_rate lo hi db
  end.

End SourceSteps.

End EffectChain.

(** ** [os.path.join]

    [os.path.join(a, b)] of the standard library, on POSIX paths: a second
    part that starts with the separator replaces the first; otherwise the
    parts are joined with one separator, which is left out when the first
    part is empty or already ends with it. *)

Module OsPath.

Definition startswith_sep (s : string) : bool :=
  match s with
  | String c _ => Ascii.eqb c "/"
  | EmptyString => false
  end.

Fixpoint endswith_sep (s : string) : bool :=
  match s with
  | EmptyString => false
  | String c EmptyString => Ascii.eqb c "/"
  | String _ s' => endswith_sep s'
  end.

Definition join (path b : string) : string :=
  if startswith_sep b then b
  else if String.eqb path "" || endswith_sep path then (path ++ b)%string
  else (path ++ "/" ++ b)%string.

End OsPath.

(** ** [class AudioSplitter] *)

Module AudioSplitter.

(** The file names of the dictionary that [separate_audio] returns. *)
Definition stem_files : list (string * string) :=
  [ ("vocals", "vocals.wav");
    ("accompaniment", "other.wav");
    ("bass", "bass.wav");
    ("drums", "drums.wav");
    ("piano", "piano.wav") ].

Section Splitter.

(** The external part of [separate_audio]: building the
    [Separator(f'spleeter:{self.stems}stems')], [os.makedirs] and
    [separate_to_file], for a number of stems, an input path and an output
    path. *)
Variable separate_to_file : Z -> string -> string -> result unit.

(** [separate_audio(input_path, output_path)] of a splitter whose field
    [stems] is [stems] (5 unless [__init__] is given another number). *)
Definition separate_audio (stems : Z) (input_path output_path : string)
    : result (gmap string string) :=
  _ ← separate_to_file stems input_path output_path;
  Ok (list_to_map
        (map (fun kv => (kv.1, OsPath.join output_path kv.2)) stem_files)).

End Splitter.

End AudioSplitter.

(** ** Vocabulary for the properties of the note generation *)

(** Whether a chord label is a key of the chord table. *)
Definition mapped (chord_name : string) : bool :=
  bool_decide (is_Some (note_mapping !! chord_name)).

(** A chord that makes [generate_midi] raise: its label is a key of the
    table, so that notes are built for it, and it ends before it starts. *)
Definition unplayable {Time : Type} `{TimeLt Time} (c : Chord Time) : bool :=
  mapped c.2 && reversed c.

(** The three keys of the table whose second pitch name is written with
    [-]. *)
Definition flat_spelled : list string := ["C:min"; "F:min"; "G:min"].

(** The pitch of the root that a label names: its first character in
    octave 4. *)
Definition root_of (chord_name : string) : result Z :=
  Librosa.note_to_midi (substring 0 1 chord_name ++ "4")%string.

(** The third of a triad above its root, in semitones: 4 for the labels
    that end in ["maj"], 3 for the others. *)
Definition third_of (chord_name : string) : Z :=
  if String.eqb (substring 2 3 chord_name) "maj" then 4 else 3.

(** A table entry is a triad in root position: root, third and fifth (7
    semitones above the root), all as [note_to_midi] resolves them. *)
Definition root_position (chord_name : string) (names : list string)
    : bool :=
  match root_of chord_name, map Librosa.note_to_midi names with
  | Ok root, [Ok p1; Ok p2; Ok p3] =>
      Z.eqb p1 root && Z.eqb p2 (root + third_of chord_name)
      && Z.eqb p3 (root + 7)
  | _, _ => false
  end.

(** Every name of the list resolves to a pitch between [lo] and [hi]. *)
Definition pitches_within (lo hi : Z) (names : list string) : bool :=
  forallb
    (fun name =>
       match Librosa.note_to_midi name with
       | Ok p => Z.leb lo p && Z.leb p hi
       | Raise _ => false
       end)
    names.

(** * Properties *)

(** ** [note_to_midi] on librosa's documented examples *)

Example note_to_midi_documented :
  map Librosa.note_to_midi ["C"; "C#3"; "f4"; "Bb-1"; "A!8"]
  = [Ok 12; Ok 49; Ok 65; Ok 10; Ok 116].
Proof. reflexivity. Qed.

Example note_to_midi_cents :
  map Librosa.note_to_midi ["A4+30"; "A4-30"; "A4+50"; "A#4+50"; "A4-50"]
  = [Ok 69; Ok 69; Ok 70; Ok 70; Ok 68].
Proof. reflexivity. Qed.

Example note_to_midi_improper :
  map Librosa.parses ["H4"; "C4x"; ""; "4C"; "Cb#"] =
  [false; false; false; false; true].
Proof. reflexivity. Qed.

(** ** The chord table *)

Lemma note_mapping_keys :
  note_mapping_items.*1 =
  [ "C:maj"; "C:min"; "D:maj"; "D:min"; "E:maj"; "E:min"; "F:maj";
    "F:min"; "G:maj"; "G:min"; "A:maj"; "A:min"; "B:maj"; "B:min" ].
Proof. reflexivity. Qed.

Lemma chord_to_midi_notes_cases (chord_name : string) :
  chord_to_midi_notes chord_name = [] \/
  (chord_name, chord_to_midi_notes chord_name) ∈ note_mapping_items.
Proof.
  unfold chord_to_midi_notes, note_mapping.
  destruct (list_to_map note_mapping_items !! chord_name) as [v|] eqn:E.
  - right. simpl. by apply (elem_of_list_to_map_2 (M := gmap string)).
  - by left.
Qed.

(** A property of every value of the table holds of every answer of the
    mapper, the empty answer included. *)
Lemma chord_to_midi_notes_ind (P : list string -> Prop) :
  P [] ->
  Forall (fun kv => P kv.2) note_mapping_items ->
  forall chord_name, P (chord_to_midi_notes chord_name).
Proof.
  intros Hnil Hall chord_name.
  destruct (chord_to_midi_notes_cases chord_name) as [-> | Hin]; [done|].
  rewrite Forall_forall in Hall. apply (Hall _ Hin).
Qed.

Lemma chord_to_midi_notes_triad (chord_name : string) :
  chord_to_midi_notes chord_name = [] \/
  length (chord_to_midi_notes chord_name) = 3%nat.
Proof.
  apply (chord_to_midi_notes_ind (fun l => l = [] \/ length l = 3%nat)).
  - by left.
  - unfold note_mapping_items.
    repeat (apply List.Forall_cons; [by right|]). apply List.Forall_nil.
Qed.

Lemma chord_to_midi_notes_parse (chord_name : string) :
  forallb Librosa.parses (chord_to_midi_notes chord_name) = true.
Proof.
  apply (chord_to_midi_notes_ind (fun l => forallb Librosa.parses l = true)).
  - reflexivity.
  - unfold note_mapping_items.
    repeat (apply List.Forall_cons; [reflexivity|]). apply List.Forall_nil.
Qed.

(** The pitch of every entry of the table: all are in 0..127 but the three
    names written with [-]. *)
Example note_mapping_pitches :
  map (fun kv => (kv.1, map Librosa.note_to_midi kv.2)) note_mapping_items =
  [ ("C:maj", [Ok 60; Ok 64; Ok 67]);
    ("C:min", [Ok 60; Ok (-32); Ok 67]);
    ("D:maj", [Ok 62; Ok 66; Ok 69]);
    ("D:min", [Ok 62; Ok 65; Ok 69]);
    ("E:maj", [Ok 64; Ok 68; Ok 71]);
    ("E:min", [Ok 64; Ok 67; Ok 71]);
    ("F:maj", [Ok 65; Ok 69; Ok 72]);
    ("F:min", [Ok 65; Ok (-27); Ok 72]);
    ("G:maj", [Ok 67; Ok 71; Ok 74]);
    ("G:min", [Ok 67; Ok (-25); Ok 74]);
    ("A:maj", [Ok 69; Ok 73; Ok 76]);
    ("A:min", [Ok 69; Ok 72; Ok 76]);
    ("B:maj", [Ok 71; Ok 75; Ok 78]);
    ("B:min", [Ok 71; Ok 74; Ok 78]) ].
Proof. reflexivity. Qed.

(** ** The chord table, entry by entry *)

Lemma note_mapping_lookup_items (chord_name : string) (names : list string) :
  note_mapping !! chord_name = Some names ->
  (chord_name, names) ∈ note_mapping_items.
Proof. apply (elem_of_list_to_map_2 (M := gmap string)). Qed.

Lemma mapped_in_items (chord_name : string) :
  mapped chord_name = true ->
  (chord_name, chord_to_midi_notes chord_name) ∈ note_mapping_items.
Proof.
  unfold mapped, chord_to_midi_notes. intros H.
  apply bool_decide_eq_true_1 in H as [names Hn]. rewrite Hn. simpl.
  by apply note_mapping_lookup_items.
Qed.

Lemma unmapped_no_notes (chord_name : string) :
  mapped chord_name = false -> chord_to_midi_notes chord_name = [].
Proof.
  unfold mapped, chord_to_midi_notes. intros H.
  apply bool_decide_eq_false_1 in H.
  destruct (note_mapping !! chord_name) as [names|]; [|done].
  exfalso. apply H. by exists names.
Qed.

Lemma items_checked (check : string -> list string -> bool)
    (chord_name : string) :
  forallb (fun kv => check kv.1 kv.2) note_mapping_items = true ->
  mapped chord_name = true ->
  check chord_name (chord_to_midi_notes chord_name) = true.
Proof.
  intros Hall Hm. rewrite forallb_forall in Hall.
  apply mapped_in_items in Hm. apply list_elem_of_In in Hm.
  apply (Hall _ Hm).
Qed.

Lemma chord_to_midi_notes_length (chord_name : string) :
  length (chord_to_midi_notes chord_name) =
  if mapped chord_name then 3%nat else 0%nat.
Proof.
  destruct (mapped chord_name) eqn:Hm.
  - apply Nat.eqb_eq.
    by apply (items_checked (fun _ names => Nat.eqb (length names) 3)).
  - by rewrite unmapped_no_notes.
Qed.

Lemma root_position_spec (chord_name : string) (names : list string) :
  root_position chord_name names = true <->
  exists root,
    root_of chord_name = Ok root /\
    map Librosa.note_to_midi names =
      [Ok root; Ok (root + third_of chord_name); Ok (root + 7)].
Proof.
  unfold root_position. split.
  - destruct (root_of chord_name) as [root|]; [|done].
    destruct (map Librosa.note_to_midi names)
      as [|[p1|] [|[p2|] [|[p3|] [|]]]]; try done.
    intros H. apply andb_prop in H as [H H3]. apply andb_prop in H as [H1 H2].
    apply Z.eqb_eq in H1, H2, H3. subst. by exists root.
  - intros (root & -> & ->). by rewrite !Z.eqb_refl.
Qed.

(** ** The note generation loops *)

Lemma R_time_not_before (a b : R) : (a <= b)%R -> time_ltb b a = false.
Proof.
  intros Hab. unfold time_ltb, R_time. destruct (Rlt_dec b a); [lra|done].
Qed.

Section SynthesisFacts.

Context {Time : Type} `{TimeLt Time}.

Lemma chord_N_unmapped : chord_to_midi_notes "N" = [].
Proof. reflexivity. Qed.

Lemma not_reversed_playable (cs : list (Chord Time)) :
  Forall (fun c => reversed c = false) cs ->
  Forall (fun c => unplayable c = false) cs.
Proof.
  intros Hrev. eapply Forall_impl; [exact Hrev|].
  intros c Hc. unfold unplayable. rewrite Hc. apply andb_false_r.
Qed.

Lemma playable_or_not (cs : list (Chord Time)) :
  Forall (fun c => unplayable c = false) cs \/
  Exists (fun c => unplayable c = true) cs.
Proof.
  induction cs as [|c cs [IH|IH]].
  - left. constructor.
  - destruct (unplayable c) eqn:U.
    + right. by constructor.
    + left. by constructor.
  - right. by constructor 2.
Qed.

Lemma append_notes_spec (s e : Time) (names : list string) :
  forallb Librosa.parses names = true ->
  time_ltb e s = false ->
  forall ns : list (Note Time),
  exists evs,
    append_notes s e names ns = Ok (ns ++ evs) /\
    Forall2
      (fun note_name ev =>
         Librosa.note_to_midi note_name = Ok (pitch ev) /\
         start ev = s /\ end_ ev = e /\ velocity ev = 100)
      names evs.
Proof.
  intros Hok Hse. induction names as [|n names IH]; intros ns.
  - exists []. split; [by rewrite app_nil_r | constructor].
  - simpl in Hok. apply andb_prop in Hok as [Hn Hrest].
    unfold Librosa.parses in Hn. simpl.
    destruct (Librosa.note_to_midi n) as [p|] eqn:Hp; [|discriminate].
    simpl. unfold new_note. rewrite Hse. simpl.
    destruct (IH Hrest (ns ++ [MkNote 100 p s e])) as (evs & -> & Hevs).
    exists (MkNote 100 p s e :: evs). split.
    + by rewrite <- app_assoc.
    + constructor; [done | exact Hevs].
Qed.

Lemma append_notes_reversed (s e : Time) (names : list string)
    (ns : list (Note Time)) :
  forallb Librosa.parses names = true ->
  names <> [] ->
  time_ltb e s = true ->
  append_notes s e names ns
  = Raise (ValueError "Note end time must be greater than start time").
Proof.
  intros Hok Hne Hse. destruct names as [|n names]; [done|].
  simpl in Hok. apply andb_prop in Hok as [Hn _].
  unfold Librosa.parses in Hn. simpl.
  destruct (Librosa.note_to_midi n) as [p|]; [|discriminate].
  simpl. unfold new_note. by rewrite Hse.
Qed.

(** The notes already in the list do not matter to what is appended, nor to
    whether the loop raises. *)
Lemma append_notes_shift (s e : Time) (names : list string) :
  forall ns : list (Note Time),
    append_notes s e names ns
    = (evs ← append_notes s e names []; Ok (ns ++ evs)).
Proof.
  induction names as [|n names IH]; intros ns.
  - simpl. by rewrite app_nil_r.
  - simpl. destruct (Librosa.note_to_midi n) as [p|]; [simpl|done].
    destruct (new_note 100 p s e) as [m|]; [simpl|done].
    rewrite (IH (ns ++ [m])), (IH [m]).
    destruct (append_notes s e names []) as [evs|]; [simpl|done].
    by rewrite <- app_assoc.
Qed.

Lemma for_chords_shift (cs : list (Chord Time)) :
  forall ns : list (Note Time),
    for_chords cs ns = (added ← for_chords cs []; Ok (ns ++ added)).
Proof.
  induction cs as [|[[s e] name] cs IH]; intros ns.
  - simpl. by rewrite app_nil_r.
  - simpl. destruct (String.eqb name "N"); [apply IH|].
    rewrite (append_notes_shift s e _ ns).
    destruct (append_notes s e (chord_to_midi_notes name) []) as [evs|];
      [simpl|done].
    rewrite (IH (ns ++ evs)), (IH evs).
    destruct (for_chords cs []) as [added|]; [simpl|done].
    by rewrite <- app_assoc.
Qed.

Lemma mapped_not_N (name : string) :
  mapped name = true -> String.eqb name "N" = false.
Proof.
  intros Hm. destruct (String.eqb name "N") eqn:E; [|done].
  apply String.eqb_eq in E as ->. discriminate Hm.
Qed.

Lemma for_chords_cons_playable (c : Chord Time) (cs : list (Chord Time))
    (ns : list (Note Time)) :
  unplayable c = false ->
  exists evs,
    events_of_chord c evs /\
    for_chords (c :: cs) ns = for_chords cs (ns ++ evs).
Proof.
  destruct c as [[s e] name]. unfold unplayable, reversed. simpl. intros U.
  destruct (mapped name) eqn:Hm; simpl in U.
  - rewrite (mapped_not_N _ Hm).
    destruct (append_notes_spec s e _ (chord_to_midi_notes_parse name) U ns)
      as (evs & -> & Hevs).
    by exists evs.
  - exists []. unfold events_of_chord. simpl.
    rewrite (unmapped_no_notes _ Hm), app_nil_r.
    split; [constructor|]. by destruct (String.eqb name "N").
Qed.

Lemma for_chords_cons_unplayable (c : Chord Time) (cs : list (Chord Time))
    (ns : list (Note Time)) :
  unplayable c = true ->
  for_chords (c :: cs) ns
  = Raise (ValueError "Note end time must be greater than start time").
Proof.
  destruct c as [[s e] name]. unfold unplayable, reversed. simpl. intros U.
  apply andb_prop in U as [Hm Hr]. rewrite (mapped_not_N _ Hm).
  rewrite append_notes_reversed; try done.
  - apply chord_to_midi_notes_parse.
  - intros E. pose proof (chord_to_midi_notes_length name) as L.
    rewrite Hm, E in L. discriminate.
Qed.

Lemma for_chords_spec (cs : list (Chord Time)) :
  Forall (fun c => unplayable c = false) cs ->
  forall ns : list (Note Time),
  exists blocks,
    for_chords cs ns = Ok (ns ++ concat blocks) /\
    Forall2 events_of_chord cs blocks.
Proof.
  induction 1 as [|c cs Hc _ IH]; intros ns.
  - exists []. split; [by rewrite app_nil_r | constructor].
  - destruct (for_chords_cons_playable c cs ns Hc) as (evs & Hevs & ->).
    destruct (IH (ns ++ evs)) as (blocks & -> & Hb).
    exists (evs :: blocks). split.
    + by rewrite <- app_assoc.
    + by constructor.
Qed.

Lemma for_chords_unplayable (cs : list (Chord Time)) :
  Exists (fun c => unplayable c = true) cs ->
  forall ns : list (Note Time),
    for_chords cs ns
    = Raise (ValueError "Note end time must be greater than start time").
Proof.
  induction cs as [|c cs IH]; intros HE ns; [by inversion HE|].
  destruct (unplayable c) eqn:U.
  - by apply for_chords_cons_unplayable.
  - destruct (for_chords_cons_playable c cs ns U) as (evs & _ & ->).
    apply IH. inversion HE; subst; [congruence | done].
Qed.

(** [generate_midi] returns on every recognizer whose chords are set and
    playable: it appends the events of the chords to the notes already there
    and lists the instrument once more. *)
Lemma generate_midi_spec (self : ChordRecognizer.t Time)
    (cs : list (Chord Time)) :
  chords self = Some cs ->
  Forall (fun c => unplayable c = false) cs ->
  exists blocks self',
    generate_midi self = Ok self' /\
    notes (instrument_chords self') =
      notes (instrument_chords self) ++ concat blocks /\
    midi_chords self' = midi_chords self ++ [SelfInstrumentChords] /\
    chords self' = Some cs /\
    Forall2 events_of_chord cs blocks.
Proof.
  intros Hcs Hplay. unfold generate_midi. rewrite Hcs.
  destruct (for_chords_spec cs Hplay (notes (instrument_chords self)))
    as (blocks & -> & Hb).
  exists blocks. eexists. simpl. split; [reflexivity|]. simpl. done.
Qed.

(** After the first run on a new recognizer the track that [save_midi]
    writes holds the notes once. *)
Lemma track_notes_first_run (file : string) (timeline : list (Chord Time))
    (self : ChordRecognizer.t Time) :
  generate_midi (recognize_chords timeline (init file)) = Ok self ->
  track_notes self = notes (instrument_chords self).
Proof.
  unfold generate_midi. simpl.
  destruct (for_chords timeline []) as [ns|]; [simpl|done].
  intros [= <-]. unfold track_notes. simpl. by rewrite app_nil_r.
Qed.

Lemma synthesize_spec (file : string) (timeline : list (Chord Time)) :
  Forall (fun c => unplayable c = false) timeline ->
  exists blocks,
    synthesize file timeline = Ok (concat blocks) /\
    Forall2 events_of_chord timeline blocks.
Proof.
  intros Hplay. unfold synthesize.
  destruct (generate_midi_spec (recognize_chords timeline (init file))
              timeline eq_refl Hplay)
    as (blocks & self' & -> & Hn & _ & _ & Hb).
  exists blocks. simpl. rewrite Hn. done.
Qed.

(** The events of a timeline do not depend on the notes already present:
    two lists of blocks that both describe the timeline are equal. *)
Lemma events_of_chord_functional (c : Chord Time) (e1 e2 : list (Note Time)) :
  events_of_chord c e1 -> events_of_chord c e2 -> e1 = e2.
Proof.
  unfold events_of_chord. generalize (chord_to_midi_notes c.2) as names.
  intros names H1. revert e2.
  induction H1 as [|n x names e1 (Hp & Hs & He & Hv) _ IH]; intros e2 H2.
  - by inversion H2.
  - inversion H2 as [|n' y names' e2' (Hp' & Hs' & He' & Hv') Hrest]; subst.
    f_equal; [|by apply IH].
    destruct x, y; simpl in *. congruence.
Qed.

Lemma blocks_functional (cs : list (Chord Time))
    (b1 b2 : list (list (Note Time))) :
  Forall2 events_of_chord cs b1 -> Forall2 events_of_chord cs b2 -> b1 = b2.
Proof.
  intros H1. revert b2.
  induction H1 as [|c x cs b1 Hc _ IH]; intros b2 H2.
  - by inversion H2.
  - inversion H2; subst. f_equal; [|by apply IH].
    by eapply events_of_chord_functional.
Qed.

(** A timeline whose blocks are known: what the synthesizer returns. *)
Lemma synthesize_blocks (file : string) (timeline : list (Chord Time))
    (blocks : list (list (Note Time))) :
  Forall (fun c => reversed c = false) timeline ->
  Forall2 events_of_chord timeline blocks ->
  synthesize file timeline = Ok (concat blocks).
Proof.
  intros Hrev Hb.
  destruct (synthesize_spec file timeline (not_reversed_playable _ Hrev))
    as (blocks' & -> & Hb').
  by rewrite (blocks_functional _ _ _ Hb' Hb).
Qed.

End SynthesisFacts.

(** A chord of the table that ends before it starts is refused by
    [pretty_midi.Note]; a chord outside the table builds no note, so its
    times are never compared; equal start and end times are accepted. *)
Example synthesize_reversed_interval :
  synthesize "piano.wav" [ (2%nat, 1%nat, "C:maj") ]
  = Raise (ValueError "Note end time must be greater than start time") /\
  synthesize "piano.wav" [ (2%nat, 1%nat, "N"); (5%nat, 4%nat, "C:sus2") ]
  = Ok [] /\
  synthesize "piano.wav" [ (1%nat, 1%nat, "C:maj") ]
  = Ok [ MkNote 100 60 1%nat 1%nat; MkNote 100 64 1%nat 1%nat;
         MkNote 100 67 1%nat 1%nat ].
Proof. repeat split; reflexivity. Qed.

(** ** Strided slices *)

Example slice_step_even_odd :
  Numpy.slice_step 0 2 [1; 2; 3; 4; 5] = [1; 3; 5] /\
  Numpy.slice_step 1 2 [1; 2; 3; 4; 5] = [2; 4].
Proof. split; reflexivity. Qed.

Example set_slice_step_examples :
  Numpy.set_slice_step 1 2 [1; 2; 3; 4; 5] [7; 8] = Ok [1; 7; 3; 8; 5] /\
  Numpy.set_slice_step 0 2 [1; 2; 3; 4; 5] [9] = Ok [9; 2; 9; 4; 9] /\
  Numpy.set_slice_step 0 2 [1; 2; 3; 4; 5] [7; 8]
  = Raise (ValueError "could not broadcast input array").
Proof. repeat split; reflexivity. Qed.

Section SliceFacts.

Context {A : Type}.
Implicit Types a d src : list A.

Lemma strided_from_length_eq a d (skip gap : nat) :
  length d = length a ->
  length (Numpy.strided_from skip gap d) =
  length (Numpy.strided_from skip gap a).
Proof.
  revert d skip. induction a as [|x a IH]; intros [|y d] skip Hlen;
    simpl in *; try done.
  injection Hlen as Hlen. destruct skip; simpl; auto.
Qed.

Lemma broadcast_same_count src (selected : nat) :
  length src = selected ->
  match src with
  | [row] => replicate selected row
  | _ => src
  end = src.
Proof. intros <-. by destruct src as [|row [|row' src]]. Qed.

(** Writing the even rows and then the odd rows of [f <$> a] into an array
    of the same length gives [f <$> a], whatever the array held; and the
    same in the other order. *)
Lemma assign_both (f : A -> A) a :
  forall d, length d = length a ->
    (exists d1,
        Numpy.assign_from 0 1 d (map f (Numpy.strided_from 0 1 a)) = Some d1
        /\ length d1 = length a
        /\ Numpy.assign_from 1 1 d1 (map f (Numpy.strided_from 1 1 a))
           = Some (map f a))
    /\
    (exists d1,
        Numpy.assign_from 1 1 d (map f (Numpy.strided_from 1 1 a)) = Some d1
        /\ length d1 = length a
        /\ Numpy.assign_from 0 1 d1 (map f (Numpy.strided_from 0 1 a))
           = Some (map f a)).
Proof.
  induction a as [|x a IH]; intros [|y d] Hlen; simpl in Hlen; try done.
  - split; exists []; done.
  - injection Hlen as Hlen.
    destruct (IH d Hlen) as [(e1 & He1 & Hl1 & He1') (e2 & He2 & Hl2 & He2')].
    split.
    + exists (f x :: e2). simpl. rewrite He2. simpl. rewrite He2'.
      by rewrite Hl2.
    + exists (y :: e1). simpl. rewrite He1. simpl. rewrite He1'.
      by rewrite Hl1.
Qed.

End SliceFacts.

(** ** [stereo_widen] *)

Lemma empty_like_length (u : nat -> nat -> R) (a : Numpy.array) :
  length (Numpy.empty_like u a) = length a.
Proof. unfold Numpy.empty_like. apply length_imap. Qed.

(** [stereo_widen] returns on every array, of any number of rows: the result
    is the array scaled by [width], and the cells that [np.empty_like] left
    uninitialised are all overwritten. *)
Lemma stereo_widen_scales (u : nat -> nat -> R) (audio : Numpy.array)
    (width : R) :
  AudioMastering.stereo_widen u audio width = Ok (Numpy.scale audio width).
Proof.
  unfold AudioMastering.stereo_widen, Numpy.set_slice_step, Numpy.slice_step.
  unfold Numpy.scale. simpl Nat.sub.
  set (f := map (fun x : R => (x * width)%R)).
  pose proof (empty_like_length u audio) as Hlen.
  destruct (assign_both f audio _ Hlen) as [(d1 & H1 & Hl1 & H2) _].
  rewrite broadcast_same_count.
  2:{ rewrite length_map. symmetry. by apply strided_from_length_eq. }
  rewrite H1. simpl.
  rewrite broadcast_same_count.
  2:{ rewrite length_map. symmetry. by apply strided_from_length_eq. }
  rewrite H2. reflexivity.
Qed.

Lemma scale_scale (a : Numpy.array) (w1 w2 : R) :
  Numpy.scale (Numpy.scale a w1) w2 = Numpy.scale a (w1 * w2)%R.
Proof.
  unfold Numpy.scale. rewrite List.map_map. apply List.map_ext. intros row.
  rewrite List.map_map. apply List.map_ext. intros x. apply Rmult_assoc.
Qed.

Lemma scale_1 (a : Numpy.array) : Numpy.scale a 1%R = a.
Proof.
  unfold Numpy.scale. rewrite <- (List.map_id a) at 2.
  apply List.map_ext. intros row. rewrite <- (List.map_id row) at 2.
  apply List.map_ext. intros x. apply Rmult_1_r.
Qed.

(** ** [reduce_piano_volume] *)

Section FilterFacts.

Local Open Scope R_scope.

Variable butter_design : nat -> R -> R -> Scipy.coefficients.
Variable lfilter : list R -> list R -> Numpy.array -> result Numpy.array.

(** Critical frequencies outside [0 < low < high < 1] are refused by the
    filter design. *)
Lemma butter_band_invalid (N : nat) (low high : R) :
  high <= low \/ 1 <= high ->
  exists msg, Scipy.butter_band butter_design N low high
              = Raise (ValueError msg).
Proof.
  intros H. unfold Scipy.butter_band.
  destruct (Rle_dec low 0); [eauto|].
  destruct (Rle_dec high 0); [eauto|].
  destruct (Rlt_dec low high); [|eauto].
  destruct (Rle_dec 1 high); [eauto|]. lra.
Qed.

Lemma butter_band_valid (N : nat) (low high : R) :
  0 < low -> low < high -> high < 1 ->
  Scipy.butter_band butter_design N low high
  = Ok (butter_design N low high).
Proof.
  intros H0 H1 H2. unfold Scipy.butter_band.
  destruct (Rle_dec low 0); [lra|].
  destruct (Rle_dec high 0); [lra|].
  destruct (Rlt_dec low high); [|lra].
  destruct (Rle_dec 1 high); [lra|]. reflexivity.
Qed.

Lemma reduce_piano_volume_invalid (audio : Numpy.array)
    (sample_rate freq_low freq_high reduction_db : R) :
  0 < sample_rate ->
  freq_high <= freq_low \/ 0.5 * sample_rate <= freq_high ->
  exists msg,
    AudioMastering.reduce_piano_volume butter_design lfilter
      audio sample_rate freq_low freq_high reduction_db
    = Raise (ValueError msg).
Proof.
  intros Hsr H. unfold AudioMastering.reduce_piano_volume.
  set (nyquist := 0.5 * sample_rate).
  assert (0 < nyquist) as Hn by (unfold nyquist; lra).
  destruct (Req_dec_T nyquist 0) as [E|_]; [lra|].
  destruct (butter_band_invalid 1 (freq_low / nyquist) (freq_high / nyquist))
    as [msg ->]; [|by exists msg].
  destruct H as [H|H].
  - left. unfold Rdiv. apply Rmult_le_compat_r; [|exact H].
    left. by apply Rinv_0_lt_compat.
  - right. apply (Rmult_le_reg_r nyquist); [exact Hn|].
    unfold Rdiv. rewrite Rmult_assoc, Rinv_l; unfold nyquist in *; lra.
Qed.

(** On a valid band the function returns the signal minus the filtered
    signal scaled by [10 ** (reduction_db / 20)], sample by sample. *)
Lemma reduce_piano_volume_valid (audio filtered : Numpy.array)
    (sample_rate freq_low freq_high reduction_db : R) :
  let nyquist := 0.5 * sample_rate in
  let coeffs := butter_design 1 (freq_low / nyquist) (freq_high / nyquist) in
  0 < freq_low -> freq_low < freq_high -> freq_high < nyquist ->
  lfilter coeffs.1 coeffs.2 audio = Ok filtered ->
  Numpy.shape filtered = Numpy.shape audio ->
  AudioMastering.reduce_piano_volume butter_design lfilter
    audio sample_rate freq_low freq_high reduction_db
  = Ok (zip_with (zip_with Rminus) audio
          (Numpy.scale filtered (Rpower 10 (reduction_db / 20)))).
Proof.
  intros nyquist coeffs H0 H1 H2 Hf Hshape.
  unfold AudioMastering.reduce_piano_volume. fold nyquist.
  assert (0 < nyquist) as Hn by lra.
  destruct (Req_dec_T nyquist 0) as [E|_]; [lra|].
  rewrite butter_band_valid.
  - fold coeffs. destruct coeffs as [b a] eqn:Ec. simpl in *.
    rewrite Hf. simpl. unfold Numpy.sub.
    rewrite bool_decide_eq_true_2; [done|].
    rewrite <- Hshape. unfold Numpy.shape, Numpy.scale.
    rewrite List.map_map. apply List.map_ext. intros row.
    by rewrite length_map.
  - by apply Rdiv_lt_0_compat.
  - unfold Rdiv. apply Rmult_lt_compat_r; [by apply Rinv_0_lt_compat|done].
  - apply (Rmult_lt_reg_r nyquist); [exact Hn|].
    unfold Rdiv. rewrite Rmult_assoc, Rinv_l; unfold nyquist in *; lra.
Qed.

End FilterFacts.

(** ** The script as a chain *)

Section ChainFacts.

Variable plugin_process :
  Pedalboard.Plugin -> Numpy.array -> R -> result Numpy.array.
Variable butter_design : nat -> R -> R -> Scipy.coefficients.
Variable lfilter : list R -> list R -> Numpy.array -> result Numpy.array.
Variable uninitialised : nat -> nat -> R.

Lemma bind_Ok_r {A} (r : result A) : (x ← r; Ok x) = r.
Proof. by destruct r. Qed.

Lemma process_audio_is_default_chain (audio : Numpy.array)
    (sample_rate : R) :
  AudioMastering.process_audio plugin_process butter_design lfilter
    uninitialised audio sample_rate
  = EffectChain.apply
      (EffectChain.source_step plugin_process butter_design lfilter
         uninitialised)
      EffectChain.default_chain audio sample_rate.
Proof.
  unfold AudioMastering.process_audio, AudioMastering.board,
    EffectChain.default_chain.
  simpl.
  destruct (plugin_process _ audio sample_rate) as [a1|]; [simpl|done].
  destruct (plugin_process _ a1 sample_rate) as [a2|]; [simpl|done].
  destruct (plugin_process _ a2 sample_rate) as [a3|]; [simpl|done].
  destruct (plugin_process _ a3 sample_rate) as [a4|]; [simpl|done].
  destruct (plugin_process _ a4 sample_rate) as [a5|]; [simpl|done].
  destruct (AudioMastering.stereo_widen _ a5 _) as [a6|]; [simpl|done].
  by rewrite bind_Ok_r.
Qed.

End ChainFacts.

(** ** What the subtraction does to a signal the filter passes or stops *)

Section BandFacts.

Local Open Scope R_scope.

Variable butter_design : nat -> R -> R -> Scipy.coefficients.
Variable lfilter : list R -> list R -> Numpy.array -> result Numpy.array.


Lemma sub_scaled_silence (a : Numpy.array) (g : R) :
  zip_with (zip_with Rminus) a (Numpy.scale (Numpy.scale a 0) g) = a.
Proof.
  unfold Numpy.scale. induction a as [|row a IH]; [done|].
  simpl. f_equal; [|exact IH]. clear IH.
  induction row as [|x row IH]; [done|].
  simpl. f_equal; [lra | exact IH].
Qed.


(** Where the filter returns silence, the output is the signal. *)
Lemma reduce_piano_volume_stopped (audio : Numpy.array)
    (sample_rate freq_low freq_high reduction_db : R) :
  let nyquist := 0.5 * sample_rate in
  let coeffs := butter_design 1 (freq_low / nyquist) (freq_high / nyquist) in
  0 < freq_low -> freq_low < freq_high -> freq_high < nyquist ->
  lfilter coeffs.1 coeffs.2 audio = Ok (Numpy.scale audio 0) ->
  AudioMastering.reduce_piano_volume butter_design lfilter
    audio sample_rate freq_low freq_high reduction_db
  = Ok audio.
Proof.
  intros nyquist coeffs H0 H1 H2 Hf.
  rewrite (reduce_piano_volume_valid _ _ audio (Numpy.scale audio 0));
    try done.
  - by rewrite sub_scaled_silence.
  - unfold Numpy.shape, Numpy.scale. rewrite List.map_map.
    apply List.map_ext. intros row. by rewrite length_map.
Qed.

End BandFacts.

Section GainFacts.

Local Open Scope R_scope.


End GainFacts.

(** * The claims *)

(** C3.  The chord-to-pitch mapper is a total lookup: ["C:maj"] gives exactly
    [C4, E4, G4]; ["N"], ["unknown-label"] and every other label that is not
    one of the fourteen keys of the table give the empty list.  The mapper is
    a function into lists, so no label makes it raise. *)
Theorem chord_to_midi_notes_total_lookup :
  chord_to_midi_notes "C:maj" = ["C4"; "E4"; "G4"] /\
  chord_to_midi_notes "N" = [] /\
  chord_to_midi_notes "unknown-label" = [] /\
  forall label : string,
    label ∉ [ "C:maj"; "C:min"; "D:maj"; "D:min"; "E:maj"; "E:min"; "F:maj";
              "F:min"; "G:maj"; "G:min"; "A:maj"; "A:min"; "B:maj"; "B:min" ] ->
    chord_to_midi_notes label = [].
Proof.
  repeat split; try reflexivity.
  intros label Hnot. rewrite <- note_mapping_keys in Hnot.
  unfold chord_to_midi_notes, note_mapping.
  by rewrite (not_elem_of_list_to_map_1 (M := gmap string) _ _ Hnot).
Qed.

Lemma chord_to_midi_notes_total_lookup_witness :
  chord_to_midi_notes "D:sus4" = [].
Proof.
  apply (proj2 (proj2 (proj2 chord_to_midi_notes_total_lookup))).
  apply (bool_decide_unpack _). vm_compute. exact I.
Defined.

(** C1.  On the timeline [(0.0, 1.0, "C:maj"), (1.0, 2.0, "N")] the
    synthesizer returns exactly three notes, with the pitches of C4, E4 and G4
    (60, 64, 67), start 0, end 1 and velocity 100; they are the events of the
    first interval, and the second interval has none.  In general, on every
    timeline none of whose intervals ends before it starts, the synthesizer
    returns, and its notes are, interval by interval, one event per pitch name
    of the interval's label, with the interval's start and end times and
    velocity 100. *)
Theorem generate_midi_emits_chord_events :
  (forall file : string,
     let c4 := MkNote 100 60 0%R 1%R in
     let e4 := MkNote 100 64 0%R 1%R in
     let g4 := MkNote 100 67 0%R 1%R in
     let timeline := [ (0%R, 1%R, "C:maj"); (1%R, 2%R, "N") ] in
     synthesize file timeline = Ok [c4; e4; g4] /\
     Forall2 events_of_chord timeline [ [c4; e4; g4]; [] ] /\
     Librosa.note_to_midi "C4" = Ok 60 /\
     Librosa.note_to_midi "E4" = Ok 64 /\
     Librosa.note_to_midi "G4" = Ok 67) /\
  (forall (Time : Type) (order : TimeLt Time) (file : string)
          (timeline : list (Chord Time)),
     Forall (fun c => reversed c = false) timeline ->
     exists blocks : list (list (Note Time)),
       synthesize file timeline = Ok (concat blocks) /\
       Forall2 events_of_chord timeline blocks).
Proof.
  split.
  - intros file c4 e4 g4 timeline.
    assert (Forall2 events_of_chord timeline [ [c4; e4; g4]; [] ]) as Hb
      by repeat constructor.
    split; [|split; [exact Hb | by repeat split]].
    apply (synthesize_blocks file timeline [ [c4; e4; g4]; [] ]);
      [|exact Hb].
    repeat (apply List.Forall_cons; [apply R_time_not_before; simpl; lra|]).
    apply List.Forall_nil.
  - intros Time order file timeline Hrev.
    apply synthesize_spec. by apply not_reversed_playable.
Qed.

Lemma generate_midi_emits_chord_events_witness :
  exists blocks : list (list (Note nat)),
    synthesize "piano.wav"
      [ (0%nat, 2%nat, "A:min"); (2%nat, 3%nat, "X"); (3%nat, 3%nat, "E:maj") ]
    = Ok (concat blocks) /\
    Forall2 events_of_chord
      [ (0%nat, 2%nat, "A:min"); (2%nat, 3%nat, "X"); (3%nat, 3%nat, "E:maj") ]
      blocks.
Proof.
  apply (proj2 generate_midi_emits_chord_events nat _ "piano.wav").
  repeat (apply List.Forall_cons; [reflexivity|]). apply List.Forall_nil.
Defined.

(** C9.  Synthesis is deterministic: on a timeline none of whose intervals
    ends before it starts, two runs from two new recognizers (whatever their
    audio files) both return, with the same notes up to order.  Running
    [generate_midi] a second time on the same recognizer returns as well and
    leaves the set of notes unchanged (the list then holds every note
    twice). *)
Theorem generate_midi_deterministic :
  forall (Time : Type) (order : TimeLt Time) (timeline : list (Chord Time))
         (file1 file2 : string),
  Forall (fun c => reversed c = false) timeline ->
  exists (run1 run2 again : ChordRecognizer.t Time),
    generate_midi (recognize_chords timeline (init file1)) = Ok run1 /\
    generate_midi (recognize_chords timeline (init file2)) = Ok run2 /\
    notes (instrument_chords run1) ≡ₚ notes (instrument_chords run2) /\
    generate_midi run1 = Ok again /\
    (forall ev : Note Time,
       ev ∈ notes (instrument_chords again) <->
       ev ∈ notes (instrument_chords run1)).
Proof.
  intros Time order timeline file1 file2 Hrev.
  apply not_reversed_playable in Hrev.
  destruct (generate_midi_spec (recognize_chords timeline (init file1))
              timeline eq_refl Hrev) as (b1 & run1 & H1 & N1 & _ & C1 & B1).
  destruct (generate_midi_spec (recognize_chords timeline (init file2))
              timeline eq_refl Hrev) as (b2 & run2 & H2 & N2 & _ & _ & B2).
  destruct (generate_midi_spec run1 timeline C1 Hrev)
    as (b3 & again & H3 & N3 & _ & _ & B3).
  exists run1, run2, again. repeat split; try done.
  - rewrite N1, N2. by rewrite (blocks_functional _ _ _ B1 B2).
  - rewrite N3, (blocks_functional _ _ _ B3 B1), N1. simpl.
    rewrite elem_of_app. tauto.
  - rewrite N3, (blocks_functional _ _ _ B3 B1), N1. simpl.
    rewrite elem_of_app. tauto.
Qed.

Lemma generate_midi_deterministic_witness :
  exists (run1 run2 again : ChordRecognizer.t nat),
    generate_midi
      (recognize_chords [ (0%nat, 2%nat, "G:maj"); (2%nat, 4%nat, "N") ]
         (init "piano.wav")) = Ok run1 /\
    generate_midi
      (recognize_chords [ (0%nat, 2%nat, "G:maj"); (2%nat, 4%nat, "N") ]
         (init "other.wav")) = Ok run2 /\
    notes (instrument_chords run1) ≡ₚ notes (instrument_chords run2) /\
    generate_midi run1 = Ok again /\
    (forall ev : Note nat,
       ev ∈ notes (instrument_chords again) <->
       ev ∈ notes (instrument_chords run1)).
Proof.
  apply (generate_midi_deterministic nat _
           [ (0%nat, 2%nat, "G:maj"); (2%nat, 4%nat, "N") ]
           "piano.wav" "other.wav").
  repeat (apply List.Forall_cons; [reflexivity|]). apply List.Forall_nil.
Defined.

(** C10, evaluated at the chord ["C:min"].  Every answer of the mapper is
    empty or a triad ([chord_to_midi_notes_triad]), but the flat pitch names of
    the table are written with [-], which [note_to_midi] reads as the sign of
    the octave: ["E-4"], ["A-4"] and ["B-4"] resolve to -32, -27 and -25, and
    the synthesizer emits a note of pitch -32 for ["C:min"], outside
    0..127. *)
Theorem flat_pitch_names_out_of_range :
  chord_to_midi_notes "C:min" = ["C4"; "E-4"; "G4"] /\
  Librosa.note_to_midi "E-4" = Ok (-32) /\
  Librosa.note_to_midi "A-4" = Ok (-27) /\
  Librosa.note_to_midi "B-4" = Ok (-25) /\
  (forall file : string,
     synthesize file [ (0%R, 1%R, "C:min") ] =
     Ok [ MkNote 100 60 0%R 1%R; MkNote 100 (-32) 0%R 1%R;
          MkNote 100 67 0%R 1%R ]) /\
  ~ (0 <= -32 <= 127).
Proof.
  repeat split; try reflexivity; [|lia].
  intros file.
  apply (synthesize_blocks file [ (0%R, 1%R, "C:min") ]
           [ [ MkNote 100 60 0%R 1%R; MkNote 100 (-32) 0%R 1%R;
               MkNote 100 67 0%R 1%R ] ]).
  - repeat (apply List.Forall_cons; [apply R_time_not_before; simpl; lra|]).
    apply List.Forall_nil.
  - repeat constructor.
Qed.




(** C5.  In exact arithmetic, widening by [w1] and then by [w2] is widening
    by [w1 * w2], and widening by 1 returns the buffer itself; this holds for
    every buffer, two-channel buffers included, and whatever memory each call
    of [np.empty_like] exposes. *)
Theorem stereo_widen_compose :
  forall (u1 u2 u3 : nat -> nat -> R) (x : Numpy.array) (w1 w2 : R),
    (y ← AudioMastering.stereo_widen u1 x w1;
     AudioMastering.stereo_widen u2 y w2)
    = AudioMastering.stereo_widen u3 x (w1 * w2)%R /\
    AudioMastering.stereo_widen u1 x 1%R = Ok x.
Proof.
  intros u1 u2 u3 x w1 w2. rewrite !stereo_widen_scales. simpl.
  rewrite stereo_widen_scales, scale_scale, scale_1. done.
Qed.

(** C6, as the code has it.  [stereo_widen] has no check of the channel
    count: on a buffer of any number of channels it returns the buffer scaled
    by [width]; it never raises. *)
Theorem stereo_widen_any_channel_count :
  forall (u : nat -> nat -> R) (audio : Numpy.array) (width : R),
    AudioMastering.stereo_widen u audio width
    = Ok (Numpy.scale audio width) /\
    ~ raises (AudioMastering.stereo_widen u audio width).
Proof.
  intros u audio width. rewrite stereo_widen_scales. split; [done|].
  intros [e He]. discriminate.
Qed.

(** C6, refuted as stated: a one-channel buffer of two frames is widened,
    not refused. *)
Lemma stereo_widen_mono_returns :
  let mono : Numpy.array := [ [1%R; 2%R] ] in
  length mono <> 2%nat /\
  AudioMastering.stereo_widen (fun _ _ => 0%R) mono 1.2%R
  = Ok [ [(1 * 1.2)%R; (2 * 1.2)%R] ] /\
  ~ raises (AudioMastering.stereo_widen (fun _ _ => 0%R) mono 1.2%R).
Proof.
  intros mono. split; [simpl; lia|].
  assert (AudioMastering.stereo_widen (fun _ _ => 0%R) mono 1.2%R
          = Ok [ [(1 * 1.2)%R; (2 * 1.2)%R] ]) as E by reflexivity.
  split; [exact E|]. rewrite E. intros [e He]. discriminate.
Qed.

(** C7.  With a positive sample rate, [reduce_piano_volume] raises whenever
    [freq_high <= freq_low] or [freq_high] is at or above the Nyquist
    frequency [0.5 * sample_rate]: the normalised band is refused by the
    filter design with a [ValueError], before any sample is filtered.  The
    exception leaves [process_audio_with_pedalboard] too, which then writes
    no output file: with the band 200..2000 Hz of the script this is every
    input of sample rate at most 4000 Hz. *)
Theorem reduce_piano_volume_rejects_invalid_band :
  (forall (butter_design : nat -> R -> R -> Scipy.coefficients)
          (lfilter : list R -> list R -> Numpy.array -> result Numpy.array)
          (audio : Numpy.array)
          (sample_rate freq_low freq_high reduction_db : R),
     (0 < sample_rate)%R ->
     (freq_high <= freq_low)%R \/ (0.5 * sample_rate <= freq_high)%R ->
     exists msg,
       AudioMastering.reduce_piano_volume butter_design lfilter
         audio sample_rate freq_low freq_high reduction_db
       = Raise (ValueError msg)) /\
  (forall (plugin_process :
             Pedalboard.Plugin -> Numpy.array -> R -> result Numpy.array)
          (butter_design : nat -> R -> R -> Scipy.coefficients)
          (lfilter : list R -> list R -> Numpy.array -> result Numpy.array)
          (uninitialised : nat -> nat -> R)
          (fs : AudioMastering.files) (input_path output_path : string)
          (audio : Numpy.array) (sample_rate : R),
     fs !! input_path = Some (audio, sample_rate) ->
     (0 < sample_rate)%R -> (sample_rate <= 4000)%R ->
     raises (AudioMastering.process_audio_with_pedalboard plugin_process
               butter_design lfilter uninitialised fs input_path output_path)).
Proof.
  split.
  - intros. by apply reduce_piano_volume_invalid.
  - intros pp bd lf un fs inp out audio sr Hin Hpos Hsr.
    unfold AudioMastering.process_audio_with_pedalboard. rewrite Hin.
    unfold AudioMastering.process_audio.
    destruct (Pedalboard.call pp AudioMastering.board audio sr) as [a1|e];
      simpl; [|by exists e].
    rewrite stereo_widen_scales. simpl.
    destruct (reduce_piano_volume_invalid bd lf (Numpy.scale a1 1.2%R)
                sr 200%R 2000%R (-18)%R Hpos) as [msg ->]; [right; lra|].
    by eexists.
Qed.

Lemma reduce_piano_volume_rejects_invalid_band_witness :
  (exists msg,
     AudioMastering.reduce_piano_volume (fun _ _ _ => ([], []))
       (fun _ _ a => Ok a) [ [1%R] ] 3000%R 200%R 2000%R (-18)%R
     = Raise (ValueError msg)) /\
  raises (AudioMastering.process_audio_with_pedalboard
            (fun _ a _ => Ok a) (fun _ _ _ => ([], [])) (fun _ _ a => Ok a)
            (fun _ _ => 0%R) {[ "master.wav" := ([ [1%R] ], 3000%R) ]}
            "master.wav" "final.wav").
Proof.
  split.
  - apply (proj1 reduce_piano_volume_rejects_invalid_band); [lra | right; lra].
  - apply (proj2 reduce_piano_volume_rejects_invalid_band _ _ _ _ _ _ _
             [ [1%R] ] 3000%R); [reflexivity | lra | lra].
Defined.

(** C4, as the code has it.  The script applies HighPass, Compressor,
    Limiter, Reverb, Gain, StereoWiden and BandAttenuate in this order, each
    step on the buffer the step before returned and none after a step that
    raised: it is [apply] on [default_chain].  The chain is written into
    [process_audio_with_pedalboard], whose only arguments are the two paths:
    every call applies [default_chain] to the buffer of the input file. *)
Theorem process_audio_applies_default_chain :
  forall (plugin_process :
            Pedalboard.Plugin -> Numpy.array -> R -> result Numpy.array)
         (butter_design : nat -> R -> R -> Scipy.coefficients)
         (lfilter : list R -> list R -> Numpy.array -> result Numpy.array)
         (uninitialised : nat -> nat -> R),
    let run_step :=
      EffectChain.source_step plugin_process butter_design lfilter
        uninitialised in
    EffectChain.default_chain =
      [ EffectChain.HighPass 100; EffectChain.Compressor (-20) 4;
        EffectChain.Limiter (-0.1); EffectChain.Reverb 0.3 0.2;
        EffectChain.Gain 3; EffectChain.StereoWiden 1.2;
        EffectChain.BandAttenuate 200 2000 (-18) ]%R /\
    (forall (audio : Numpy.array) (sample_rate : R),
       AudioMastering.process_audio plugin_process butter_design lfilter
         uninitialised audio sample_rate
       = EffectChain.apply run_step EffectChain.default_chain
           audio sample_rate) /\
    (forall (fs : AudioMastering.files) (input_path output_path : string),
       AudioMastering.process_audio_with_pedalboard plugin_process
         butter_design lfilter uninitialised fs input_path output_path
       = match fs !! input_path with
         | None => Raise (ValueError "Failed to open audio file")
         | Some (audio, sample_rate) =>
             buffer ← EffectChain.apply run_step EffectChain.default_chain
                        audio sample_rate;
             Ok (<[output_path := (buffer, sample_rate)]> fs)
         end).
Proof.
  intros pp bd lf un run_step. split; [reflexivity|]. split.
  - intros. apply process_audio_is_default_chain.
  - intros fs inp out. unfold AudioMastering.process_audio_with_pedalboard.
    destruct (fs !! inp) as [[audio sr]|]; [|done].
    by rewrite process_audio_is_default_chain.
Qed.

(** C4, refuted as stated.  If a caller could make the script apply an
    arbitrary chain, some call would apply the empty chain and write the input
    buffer back unchanged.  No choice of the two paths does that: with plugins
    that return their input and a filter that returns silence, the one-sample
    buffer [[1]] at 44100 Hz is written back as 1.2, the widening that the
    script always performs. *)
Lemma effect_chain_not_caller_supplied :
  ~ (forall chain : EffectChain.t,
     exists input_path output_path : string,
     forall (plugin_process :
               Pedalboard.Plugin -> Numpy.array -> R -> result Numpy.array)
            (butter_design : nat -> R -> R -> Scipy.coefficients)
            (lfilter : list R -> list R -> Numpy.array -> result Numpy.array)
            (uninitialised : nat -> nat -> R)
            (fs : AudioMastering.files) (audio : Numpy.array)
            (sample_rate : R),
       fs !! input_path = Some (audio, sample_rate) ->
       AudioMastering.process_audio_with_pedalboard plugin_process
         butter_design lfilter uninitialised fs input_path output_path
       = (buffer ← EffectChain.apply
                     (EffectChain.source_step plugin_process butter_design
                        lfilter uninitialised)
                     chain audio sample_rate;
          Ok (<[output_path := (buffer, sample_rate)]> fs))).
Proof.
  intros H. destruct (H []) as (inp & out & Hcall). clear H.
  set (pp := fun (_ : Pedalboard.Plugin) (a : Numpy.array) (_ : R) => Ok a).
  set (bd := fun (_ : nat) (_ _ : R) => (@nil R, @nil R)).
  set (lf := fun (_ _ : list R) (a : Numpy.array) => Ok (Numpy.scale a 0%R)).
  set (un := fun _ _ : nat => 0%R).
  specialize (Hcall pp bd lf un {[ inp := ([ [1%R] ], 44100%R) ]}
                [ [1%R] ] 44100%R (lookup_singleton_eq _ _)).
  unfold AudioMastering.process_audio_with_pedalboard in Hcall.
  rewrite lookup_singleton_eq in Hcall.
  unfold AudioMastering.process_audio in Hcall.
  cbn -[AudioMastering.stereo_widen AudioMastering.reduce_piano_volume]
    in Hcall.
  rewrite stereo_widen_scales in Hcall.
  cbn -[AudioMastering.reduce_piano_volume] in Hcall.
  rewrite (reduce_piano_volume_valid bd lf _ (Numpy.scale [ [(1 * 1.2)%R] ] 0%R))
    in Hcall; try reflexivity; try lra.
  cbn [mbind result_bind Py.bind EffectChain.apply] in Hcall.
  apply (f_equal (fun r => match r with
                           | Ok m => m !! out
                           | Raise _ => None
                           end)) in Hcall.
  rewrite !lookup_insert_eq in Hcall.
  injection Hcall as Hcall. lra.
Qed.

(** * Further properties of the code *)

(** ** The note generation, chord by chord *)

Section MoreSynthesisFacts.

Context {Time : Type} `{TimeLt Time}.

Lemma events_of_chord_length (c : Chord Time) (evs : list (Note Time)) :
  events_of_chord c evs ->
  length evs = if mapped c.2 then 3%nat else 0%nat.
Proof.
  unfold events_of_chord. intros Hc.
  rewrite <- (Forall2_length _ _ _ Hc). apply chord_to_midi_notes_length.
Qed.

Lemma blocks_length (cs : list (Chord Time)) (blocks : list (list (Note Time))) :
  Forall2 events_of_chord cs blocks ->
  length (concat blocks) =
  (3 * length (List.filter (fun c => mapped c.2) cs))%nat.
Proof.
  induction 1 as [|c evs cs blocks Hc _ IH]; [done|].
  simpl. rewrite length_app, IH, (events_of_chord_length _ _ Hc).
  destruct (mapped c.2); simpl; lia.
Qed.

Lemma for_chords_app (cs1 cs2 : list (Chord Time)) :
  forall ns : list (Note Time),
    for_chords (cs1 ++ cs2) ns = (ns' ← for_chords cs1 ns; for_chords cs2 ns').
Proof.
  induction cs1 as [|[[s e] name] cs1 IH]; intros ns; [done|].
  simpl. destruct (String.eqb name "N"); [apply IH|].
  destruct (append_notes s e (chord_to_midi_notes name) ns) as [ns'|];
    [apply IH | done].
Qed.

Lemma for_chords_mapped_only (cs : list (Chord Time)) :
  forall ns : list (Note Time),
    for_chords (List.filter (fun c => mapped c.2) cs) ns = for_chords cs ns.
Proof.
  induction cs as [|[[s e] name] cs IH]; intros ns; [done|].
  simpl. destruct (mapped name) eqn:Hm; simpl.
  - destruct (String.eqb name "N"); [apply IH|].
    destruct (append_notes s e (chord_to_midi_notes name) ns) as [ns'|];
      [apply IH | done].
  - rewrite IH. destruct (String.eqb name "N"); [done|].
    by rewrite (unmapped_no_notes _ Hm).
Qed.

Lemma synthesize_for_chords (file : string) (timeline : list (Chord Time)) :
  synthesize file timeline = for_chords timeline [].
Proof.
  unfold synthesize, generate_midi. simpl.
  by destruct (for_chords timeline []).
Qed.

(** What [generate_midi] returns or raises, from what a new recognizer
    does on the same chords. *)
Lemma generate_midi_result (self : ChordRecognizer.t Time)
    (cs : list (Chord Time)) :
  chords self = Some cs ->
  generate_midi self =
    (added ← synthesize (audio_file self) cs;
     Ok {| audio_file := audio_file self;
           chords := Some cs;
           midi_chords := midi_chords self ++ [SelfInstrumentChords];
           instrument_chords :=
             {| program := program (instrument_chords self);
                notes := notes (instrument_chords self) ++ added |} |}).
Proof.
  intros Hcs. unfold generate_midi.
  rewrite Hcs, for_chords_shift, synthesize_for_chords.
  by destruct (for_chords cs []).
Qed.

Lemma generate_midi_raises_iff (self : ChordRecognizer.t Time) :
  raises (generate_midi self) <->
  chords self = None \/
  exists cs, chords self = Some cs /\
             Exists (fun c => unplayable c = true) cs.
Proof.
  split.
  - intros [e He]. destruct (chords self) as [cs|] eqn:Hcs; [|by left].
    right. exists cs. split; [done|].
    destruct (playable_or_not cs) as [Hplay|Hex]; [|exact Hex].
    destruct (generate_midi_spec self cs Hcs Hplay) as (b & self' & E & _).
    rewrite E in He. discriminate.
  - intros [Hcs | (cs & Hcs & Hex)]; unfold generate_midi; rewrite Hcs.
    + by eexists.
    + rewrite (for_chords_unplayable cs Hex). by eexists.
Qed.

End MoreSynthesisFacts.

(** X1.  On every timeline none of whose intervals ends before it starts,
    the synthesizer returns, with three notes for each chord whose label is a
    key of the table and none for the others. *)
Theorem synthesize_note_count :
  forall (Time : Type) (order : TimeLt Time) (file : string)
         (timeline : list (Chord Time)),
  Forall (fun c => reversed c = false) timeline ->
  exists ns : list (Note Time),
    synthesize file timeline = Ok ns /\
    length ns =
      (3 * length (List.filter (fun c => mapped c.2) timeline))%nat.
Proof.
  intros Time order file timeline Hrev.
  destruct (synthesize_spec file timeline (not_reversed_playable _ Hrev))
    as (blocks & Hs & B).
  exists (concat blocks). split; [exact Hs | by apply blocks_length].
Qed.

Lemma synthesize_note_count_witness :
  exists ns : list (Note nat),
    synthesize "piano.wav"
      [ (0%nat, 1%nat, "C:maj"); (1%nat, 2%nat, "N"); (2%nat, 2%nat, "C:min");
        (2%nat, 5%nat, "Z:dim") ] = Ok ns /\
    length ns =
      (3 * length (List.filter (fun c => mapped c.2)
                     [ (0%nat, 1%nat, "C:maj"); (1%nat, 2%nat, "N");
                       (2%nat, 2%nat, "C:min"); (2%nat, 5%nat, "Z:dim") ]))%nat.
Proof.
  apply (synthesize_note_count nat _ "piano.wav").
  repeat (apply List.Forall_cons; [reflexivity|]). apply List.Forall_nil.
Defined.

(** X2.  [generate_midi] only appends.  On a recognizer whose chords are
    set it does what a new recognizer does on these chords: where that one
    raises it raises the same exception, and where that one returns notes it
    returns the same recognizer with the instrument listed once more and
    these notes put after the notes it already held.  The audio file, the
    chords and the program of the instrument are unchanged. *)
Theorem generate_midi_appends :
  forall (Time : Type) (order : TimeLt Time) (self : ChordRecognizer.t Time)
         (cs : list (Chord Time)),
    chords self = Some cs ->
    generate_midi self =
      (added ← synthesize (audio_file self) cs;
       Ok {| audio_file := audio_file self;
             chords := Some cs;
             midi_chords := midi_chords self ++ [SelfInstrumentChords];
             instrument_chords :=
               {| program := program (instrument_chords self);
                  notes := notes (instrument_chords self) ++ added |} |}).
Proof. intros Time order self cs. apply generate_midi_result. Qed.

Lemma generate_midi_appends_witness :
  generate_midi
    {| audio_file := "piano.wav";
       chords := Some [(0%nat, 2%nat, "G:maj")];
       midi_chords := [];
       instrument_chords :=
         {| program := 0; notes := [MkNote 100 60 5%nat 6%nat] |} |}
  = (added ← synthesize "piano.wav" [(0%nat, 2%nat, "G:maj")];
     Ok {| audio_file := "piano.wav";
           chords := Some [(0%nat, 2%nat, "G:maj")];
           midi_chords := [SelfInstrumentChords];
           instrument_chords :=
             {| program := 0;
                notes := MkNote 100 60 5%nat 6%nat :: added |} |}).
Proof.
  apply (generate_midi_appends nat _
           {| audio_file := "piano.wav";
              chords := Some [(0%nat, 2%nat, "G:maj")];
              midi_chords := [];
              instrument_chords :=
                {| program := 0; notes := [MkNote 100 60 5%nat 6%nat] |} |}).
  reflexivity.
Defined.

(** X3.  [generate_midi] raises in exactly two cases: the chords were never
    set ([recognize_chords] not called), or some chord whose label is a key
    of the table ends before it starts, which [pretty_midi.Note] refuses.
    No chord label by itself, known or unknown, makes it raise. *)
Theorem generate_midi_raises_iff_unrecognized :
  forall (Time : Type) (order : TimeLt Time) (self : ChordRecognizer.t Time),
    raises (generate_midi self) <->
    chords self = None \/
    exists cs : list (Chord Time),
      chords self = Some cs /\
      Exists (fun c => mapped c.2 = true /\ reversed c = true) cs.
Proof.
  intros Time order self. rewrite generate_midi_raises_iff.
  split; (intros [Hn | (cs & Hcs & Hex)]; [by left | right]);
    exists cs; (split; [done|]);
    (eapply Exists_impl; [exact Hex|]); intros c; unfold unplayable.
  - apply andb_prop.
  - intros [-> ->]. reflexivity.
Qed.

(** X4.  The synthesizer on two timelines one after the other does what it
    does on the first and then on the second: it returns the notes of the
    first followed by the notes of the second, and raises where either of
    them raises. *)
Theorem synthesize_app :
  forall (Time : Type) (order : TimeLt Time) (file : string)
         (t1 t2 : list (Chord Time)),
    synthesize file (t1 ++ t2) =
      (n1 ← synthesize file t1; n2 ← synthesize file t2; Ok (n1 ++ n2)).
Proof.
  intros Time order file t1 t2. rewrite !synthesize_for_chords.
  rewrite for_chords_app.
  destruct (for_chords t1 []) as [n1|]; [simpl|done].
  apply for_chords_shift.
Qed.

(** X5.  Chords whose label is not a key of the table (["N"] among them)
    have no effect: dropping them from the timeline gives the same notes. *)
Theorem synthesize_ignores_unmapped :
  forall (Time : Type) (order : TimeLt Time) (file : string)
         (timeline : list (Chord Time)),
    synthesize file (List.filter (fun c => mapped c.2) timeline)
    = synthesize file timeline.
Proof.
  intros Time order file timeline. rewrite !synthesize_for_chords.
  apply for_chords_mapped_only.
Qed.

(** X6.  [generate_midi] is not idempotent.  On a timeline none of whose
    intervals ends before it starts, calling it twice on a new recognizer
    leaves every note held twice, and because [self.midi_chords.instruments]
    then lists the same instrument object twice, the track that [save_midi]
    writes holds every note four times. *)
Theorem generate_midi_twice :
  forall (Time : Type) (order : TimeLt Time) (file : string)
         (timeline : list (Chord Time)),
  Forall (fun c => reversed c = false) timeline ->
  exists (ns : list (Note Time)) (run1 run2 : ChordRecognizer.t Time),
    synthesize file timeline = Ok ns /\
    generate_midi (recognize_chords timeline (init file)) = Ok run1 /\
    generate_midi run1 = Ok run2 /\
    notes (instrument_chords run1) = ns /\
    track_notes run1 = ns /\
    notes (instrument_chords run2) = ns ++ ns /\
    track_notes run2 = (ns ++ ns) ++ (ns ++ ns).
Proof.
  intros Time order file timeline Hrev.
  destruct (synthesize_spec file timeline (not_reversed_playable _ Hrev))
    as (blocks & Hs & _).
  set (ns := concat blocks) in *.
  pose proof (generate_midi_result (recognize_chords timeline (init file))
                timeline eq_refl) as H1.
  simpl in H1. rewrite Hs in H1. simpl in H1.
  set (run1 := {| audio_file := file;
                  chords := Some timeline;
                  midi_chords := [SelfInstrumentChords];
                  instrument_chords := {| program := 0; notes := ns |} |})
    in *.
  exists ns, run1. eexists.
  split; [exact Hs|]. split; [exact H1|].
  rewrite (generate_midi_result run1 timeline eq_refl). simpl.
  rewrite Hs. simpl.
  repeat split; try reflexivity.
  - unfold track_notes. simpl. by rewrite app_nil_r.
  - unfold track_notes. simpl. by rewrite app_nil_r.
Qed.

Lemma generate_midi_twice_witness :
  exists (ns : list (Note nat)) (run1 run2 : ChordRecognizer.t nat),
    synthesize "piano.wav" [ (0%nat, 2%nat, "D:maj") ] = Ok ns /\
    generate_midi
      (recognize_chords [ (0%nat, 2%nat, "D:maj") ] (init "piano.wav"))
    = Ok run1 /\
    generate_midi run1 = Ok run2 /\
    notes (instrument_chords run1) = ns /\
    track_notes run1 = ns /\
    notes (instrument_chords run2) = ns ++ ns /\
    track_notes run2 = (ns ++ ns) ++ (ns ++ ns).
Proof.
  apply (generate_midi_twice nat _ "piano.wav" [ (0%nat, 2%nat, "D:maj") ]).
  repeat (apply List.Forall_cons; [reflexivity|]). apply List.Forall_nil.
Defined.

Lemma pitches_within_events {Time : Type} (lo hi : Z) (names : list string)
    (s e : Time) (evs : list (Note Time)) :
  pitches_within lo hi names = true ->
  Forall2
    (fun note_name ev =>
       Librosa.note_to_midi note_name = Ok (pitch ev) /\
       start ev = s /\ end_ ev = e /\ velocity ev = 100)
    names evs ->
  Forall (fun ev => lo <= pitch ev <= hi) evs.
Proof.
  intros Hw Hev. induction Hev as [|name ev names evs (Hp & _) _ IH];
    [constructor|].
  simpl in Hw. apply andb_prop in Hw as [Hn Hrest].
  constructor; [|by apply IH].
  rewrite Hp in Hn. apply andb_prop in Hn as [H1 H2]. lia.
Qed.

Lemma natural_pitches_within (chord_name : string) :
  chord_name ∉ flat_spelled ->
  pitches_within 60 78 (chord_to_midi_notes chord_name) = true.
Proof.
  intros Hflat. destruct (mapped chord_name) eqn:Hm.
  - pose proof (items_checked
      (fun k names =>
         bool_decide (k ∈ flat_spelled) || pitches_within 60 78 names)
      chord_name eq_refl Hm) as Hc.
    apply orb_prop in Hc as [Hc|Hc]; [|exact Hc].
    apply bool_decide_eq_true_1 in Hc. done.
  - by rewrite unmapped_no_notes.
Qed.

(** X7.  On a timeline without the chords ["C:min"], ["F:min"] and
    ["G:min"], none of whose intervals ends before it starts, the synthesizer
    returns and every note it emits has a pitch between 60 (C4) and 78
    (F#5), hence a valid MIDI pitch. *)
Theorem synthesize_pitches_in_range :
  forall (Time : Type) (order : TimeLt Time) (file : string)
         (timeline : list (Chord Time)),
    Forall (fun c => c.2 ∉ flat_spelled) timeline ->
    Forall (fun c => reversed c = false) timeline ->
    exists ns : list (Note Time),
      synthesize file timeline = Ok ns /\
      Forall (fun ev => 60 <= pitch ev <= 78) ns.
Proof.
  intros Time order file timeline Hflat Hrev.
  destruct (synthesize_spec file timeline (not_reversed_playable _ Hrev))
    as (blocks & Hs & B).
  exists (concat blocks). split; [exact Hs|]. clear Hs Hrev.
  induction B as [|c evs cs blocks Hc _ IH]; [constructor|].
  inversion Hflat as [|? ? Hc' Hrest]; subst.
  simpl. apply Forall_app. split; [|by apply IH].
  eapply pitches_within_events; [|exact Hc].
  by apply natural_pitches_within.
Qed.

Lemma synthesize_pitches_in_range_witness :
  exists ns : list (Note nat),
    synthesize "piano.wav"
      [(0%nat, 1%nat, "D:min"); (1%nat, 2%nat, "N"); (2%nat, 3%nat, "B:maj")]
    = Ok ns /\
    Forall (fun ev => 60 <= pitch ev <= 78) ns.
Proof.
  apply (synthesize_pitches_in_range nat _).
  - repeat (apply List.Forall_cons;
            [apply (bool_decide_unpack _); vm_compute; exact I|]).
    apply List.Forall_nil.
  - repeat (apply List.Forall_cons; [reflexivity|]). apply List.Forall_nil.
Defined.

(** X8.  For a key of the table other than ["C:min"], ["F:min"] and
    ["G:min"], the three pitch names resolve to a triad in root position on
    the root that the label names, in octave 4: the root, the third (4
    semitones above it for a [maj] label, 3 for a [min] label) and the fifth
    (7 semitones).  For the three flat-spelled keys they do not. *)
Theorem chord_to_midi_notes_root_position :
  forall chord_name : string,
    mapped chord_name = true ->
    (chord_name ∉ flat_spelled <->
     exists root : Z,
       root_of chord_name = Ok root /\
       map Librosa.note_to_midi (chord_to_midi_notes chord_name) =
         [Ok root; Ok (root + third_of chord_name); Ok (root + 7)]).
Proof.
  intros chord_name Hm. rewrite <- root_position_spec.
  pose proof (items_checked
    (fun k names =>
       Bool.eqb (root_position k names)
                (negb (bool_decide (k ∈ flat_spelled))))
    chord_name eq_refl Hm) as H.
  apply Bool.eqb_prop in H. rewrite H. split.
  - intros Hflat. by rewrite bool_decide_eq_false_2.
  - intros Hb Hin. by rewrite bool_decide_eq_true_2 in Hb.
Qed.

Lemma chord_to_midi_notes_root_position_witness :
  "A:min" ∉ flat_spelled <->
  exists root : Z,
    root_of "A:min" = Ok root /\
    map Librosa.note_to_midi (chord_to_midi_notes "A:min") =
      [Ok root; Ok (root + third_of "A:min"); Ok (root + 7)].
Proof.
  apply (chord_to_midi_notes_root_position "A:min"). reflexivity.
Defined.

(** ** The mastering stages *)

Lemma scale_shape (a : Numpy.array) (k : R) :
  Numpy.shape (Numpy.scale a k) = Numpy.shape a.
Proof.
  unfold Numpy.shape, Numpy.scale. rewrite List.map_map.
  apply List.map_ext. intros row. by rewrite length_map.
Qed.

Lemma sub_rows_length (r1 r2 : list R) :
  length r1 = length r2 -> length (zip_with Rminus r1 r2) = length r1.
Proof.
  revert r2. induction r1 as [|x r1 IH]; intros [|y r2] H; simpl in *;
    try done.
  f_equal. apply IH. by injection H.
Qed.

Lemma sub_shape (a b : Numpy.array) :
  Numpy.shape a = Numpy.shape b ->
  Numpy.shape (zip_with (zip_with Rminus) a b) = Numpy.shape a.
Proof.
  unfold Numpy.shape. revert b.
  induction a as [|r1 a IH]; intros [|r2 b] H; simpl in *; try done.
  injection H as Hr Hrest. f_equal; [by apply sub_rows_length | by apply IH].
Qed.

(** X9.  [stereo_widen] never lets the uninitialised contents of
    [np.empty_like] through: its result is the same whatever the memory
    held, and it has the shape of the input. *)
Theorem stereo_widen_overwrites_every_cell :
  forall (u1 u2 : nat -> nat -> R) (audio : Numpy.array) (width : R),
  exists out : Numpy.array,
    AudioMastering.stereo_widen u1 audio width = Ok out /\
    AudioMastering.stereo_widen u2 audio width = Ok out /\
    Numpy.shape out = Numpy.shape audio.
Proof.
  intros u1 u2 audio width. exists (Numpy.scale audio width).
  rewrite !stereo_widen_scales. repeat split. apply scale_shape.
Qed.

(** X10.  In exact arithmetic, widening by a width other than 0 is undone by
    widening with the inverse width. *)
Theorem stereo_widen_inverse_width :
  forall (u1 u2 : nat -> nat -> R) (audio : Numpy.array) (width : R),
    width <> 0%R ->
    (widened ← AudioMastering.stereo_widen u1 audio width;
     AudioMastering.stereo_widen u2 widened (/ width)%R)
    = Ok audio.
Proof.
  intros u1 u2 audio width Hw. rewrite stereo_widen_scales. simpl.
  rewrite stereo_widen_scales, scale_scale, Rinv_r by exact Hw.
  by rewrite scale_1.
Qed.

Lemma stereo_widen_inverse_width_witness :
  (widened ← AudioMastering.stereo_widen (fun _ _ => 0%R)
               [ [1%R; 2%R]; [3%R; 4%R] ] 1.2%R;
   AudioMastering.stereo_widen (fun _ _ => 7%R) widened (/ 1.2)%R)
  = Ok [ [1%R; 2%R]; [3%R; 4%R] ].
Proof.
  apply (stereo_widen_inverse_width _ _ [ [1%R; 2%R]; [3%R; 4%R] ] 1.2%R).
  lra.
Defined.

Section MoreFilterFacts.

Local Open Scope R_scope.

Variable butter_design : nat -> R -> R -> Scipy.coefficients.
Variable lfilter : list R -> list R -> Numpy.array -> result Numpy.array.

Lemma butter_band_returns (N : nat) (low high : R) (c : Scipy.coefficients) :
  Scipy.butter_band butter_design N low high = Ok c ->
  0 < low /\ low < high /\ high < 1 /\ c = butter_design N low high.
Proof.
  unfold Scipy.butter_band.
  destruct (Rle_dec low 0); [done|].
  destruct (Rle_dec high 0); [done|].
  destruct (Rlt_dec low high); [|done].
  destruct (Rle_dec 1 high); [done|].
  intros [= <-]. repeat split; lra.
Qed.

Lemma reduce_piano_volume_returns (audio out : Numpy.array)
    (sample_rate freq_low freq_high reduction_db : R) :
  0 < sample_rate ->
  AudioMastering.reduce_piano_volume butter_design lfilter
    audio sample_rate freq_low freq_high reduction_db = Ok out ->
  let nyquist := 0.5 * sample_rate in
  let coeffs := butter_design 1 (freq_low / nyquist) (freq_high / nyquist) in
  (0 < freq_low /\ freq_low < freq_high /\ freq_high < nyquist) /\
  exists filtered : Numpy.array,
    lfilter coeffs.1 coeffs.2 audio = Ok filtered /\
    Numpy.shape filtered = Numpy.shape audio /\
    out = zip_with (zip_with Rminus) audio
            (Numpy.scale filtered (Rpower 10 (reduction_db / 20))) /\
    Numpy.shape out = Numpy.shape audio.
Proof.
  intros Hsr Hret nyquist coeffs.
  unfold AudioMastering.reduce_piano_volume in Hret. fold nyquist in Hret.
  assert (0 < nyquist) as Hn by (unfold nyquist; lra).
  destruct (Req_dec_T nyquist 0) as [E|_]; [lra|].
  destruct (Scipy.butter_band butter_design 1 (freq_low / nyquist)
              (freq_high / nyquist)) as [[b a]|] eqn:Hb; [|done].
  apply butter_band_returns in Hb as (H0 & H1 & H2 & Hc).
  fold coeffs in Hc. simpl in Hret.
  destruct (lfilter b a audio) as [filtered|] eqn:Hf; [|done].
  simpl in Hret. unfold Numpy.sub in Hret.
  case_bool_decide as Hshape; [|done].
  injection Hret as <-. rewrite scale_shape in Hshape.
  assert (/ nyquist > 0) as Hinv by (by apply Rinv_0_lt_compat).
  split.
  - unfold Rdiv in *. repeat split.
    + apply (Rmult_lt_reg_r (/ nyquist)); [exact Hinv|]. lra.
    + apply (Rmult_lt_reg_r (/ nyquist)); [exact Hinv|]. lra.
    + apply (Rmult_lt_reg_r (/ nyquist)); [exact Hinv|].
      rewrite Rinv_r; lra.
  - exists filtered. rewrite <- Hc. simpl.
    repeat split; try done.
    apply sub_shape. by rewrite scale_shape.
Qed.

End MoreFilterFacts.

(** X11.  With a positive sample rate, [reduce_piano_volume] returns exactly
    when the band is valid ([0 < freq_low < freq_high < 0.5 * sample_rate])
    and [lfilter] returns an array of the shape of the input; what it
    returns is then the input minus the filtered signal scaled by
    [10 ** (reduction_db / 20)], sample by sample, and has the shape of the
    input.  A lower bound of the band at or below 0 is refused like the
    other invalid bands. *)
Theorem reduce_piano_volume_returns_iff :
  forall (butter_design : nat -> R -> R -> Scipy.coefficients)
         (lfilter : list R -> list R -> Numpy.array -> result Numpy.array)
         (audio out : Numpy.array)
         (sample_rate freq_low freq_high reduction_db : R),
    (0 < sample_rate)%R ->
    let nyquist := (0.5 * sample_rate)%R in
    let coeffs :=
      butter_design 1%nat (freq_low / nyquist)%R (freq_high / nyquist)%R in
    (AudioMastering.reduce_piano_volume butter_design lfilter
       audio sample_rate freq_low freq_high reduction_db = Ok out
     <->
     (0 < freq_low)%R /\ (freq_low < freq_high)%R /\
     (freq_high < nyquist)%R /\
     exists filtered : Numpy.array,
       lfilter coeffs.1 coeffs.2 audio = Ok filtered /\
       Numpy.shape filtered = Numpy.shape audio /\
       out = zip_with (zip_with Rminus) audio
               (Numpy.scale filtered (Rpower 10 (reduction_db / 20)))) /\
    (AudioMastering.reduce_piano_volume butter_design lfilter
       audio sample_rate freq_low freq_high reduction_db = Ok out ->
     Numpy.shape out = Numpy.shape audio).
Proof.
  intros bd lf audio out sr lo hi db Hsr nyquist coeffs. split; [split|].
  - intros H.
    destruct (reduce_piano_volume_returns bd lf _ _ _ _ _ _ Hsr H)
      as ((H0 & H1 & H2) & filtered & Hf & Hs & -> & _).
    repeat split; try done. by exists filtered.
  - intros (H0 & H1 & H2 & filtered & Hf & Hs & ->).
    by apply reduce_piano_volume_valid.
  - intros H.
    by destruct (reduce_piano_volume_returns bd lf _ _ _ _ _ _ Hsr H)
      as (_ & filtered & _ & _ & _ & Hshape).
Qed.

Lemma reduce_piano_volume_returns_iff_witness :
  let lfilter := fun (_ _ : list R) (a : Numpy.array) => Ok a in
  let butter_design := fun (_ : nat) (_ _ : R) => ([1%R], [1%R]) in
  let out := [ [(1 - 1 * Rpower 10 (-18 / 20))%R] ] in
  (AudioMastering.reduce_piano_volume butter_design lfilter
     [ [1%R] ] 44100%R 200%R 2000%R (-18)%R = Ok out
   <->
   (0 < 200)%R /\ (200 < 2000)%R /\ (2000 < 0.5 * 44100)%R /\
   exists filtered : Numpy.array,
     lfilter [1%R] [1%R] [ [1%R] ] = Ok filtered /\
     Numpy.shape filtered = Numpy.shape [ [1%R] ] /\
     out = zip_with (zip_with Rminus) [ [1%R] ]
             (Numpy.scale filtered (Rpower 10 (-18 / 20)))) /\
  (AudioMastering.reduce_piano_volume butter_design lfilter
     [ [1%R] ] 44100%R 200%R 2000%R (-18)%R = Ok out ->
   Numpy.shape out = Numpy.shape [ [1%R] ]).
Proof.
  intros lfilter butter_design out.
  apply (reduce_piano_volume_returns_iff butter_design lfilter
           [ [1%R] ] out 44100%R 200%R 2000%R (-18)%R).
  lra.
Defined.



(** ** The mastering script as a whole *)

Section MorePipelineFacts.

Variable plugin_process :
  Pedalboard.Plugin -> Numpy.array -> R -> result Numpy.array.
Variable butter_design : nat -> R -> R -> Scipy.coefficients.
Variable lfilter : list R -> list R -> Numpy.array -> result Numpy.array.
Variable uninitialised : nat -> nat -> R.

Hypothesis plugins_keep_shape :
  forall p a sample_rate a',
    plugin_process p a sample_rate = Ok a' ->
    Numpy.shape a' = Numpy.shape a.

Lemma call_keeps_shape (plugins : list Pedalboard.Plugin) :
  forall (audio out : Numpy.array) (sample_rate : R),
    Pedalboard.call plugin_process plugins audio sample_rate = Ok out ->
    Numpy.shape out = Numpy.shape audio.
Proof.
  induction plugins as [|p plugins IH]; intros audio out sr H; simpl in H.
  - by injection H as <-.
  - destruct (plugin_process p audio sr) as [a1|] eqn:Hp; [|done].
    simpl in H. rewrite (IH _ _ _ H). by eapply plugins_keep_shape.
Qed.

Lemma reduce_piano_volume_keeps_shape (audio out : Numpy.array)
    (sample_rate freq_low freq_high reduction_db : R) :
  AudioMastering.reduce_piano_volume butter_design lfilter
    audio sample_rate freq_low freq_high reduction_db = Ok out ->
  Numpy.shape out = Numpy.shape audio.
Proof.
  unfold AudioMastering.reduce_piano_volume.
  destruct (Req_dec_T _ 0); [done|].
  destruct (Scipy.butter_band _ _ _ _) as [[b a]|]; [simpl|done].
  destruct (lfilter b a audio) as [filtered|]; [simpl|done].
  unfold Numpy.sub. case_bool_decide as Hshape; [|done].
  intros [= <-]. by apply sub_shape.
Qed.

Lemma process_audio_keeps_shape (audio out : Numpy.array) (sample_rate : R) :
  AudioMastering.process_audio plugin_process butter_design lfilter
    uninitialised audio sample_rate = Ok out ->
  Numpy.shape out = Numpy.shape audio.
Proof.
  unfold AudioMastering.process_audio.
  destruct (Pedalboard.call plugin_process AudioMastering.board audio
              sample_rate) as [a1|] eqn:Hcall; [simpl|done].
  rewrite stereo_widen_scales. simpl. intros H.
  apply reduce_piano_volume_keeps_shape in H.
  rewrite H, scale_shape. by eapply call_keeps_shape.
Qed.

End MorePipelineFacts.

(** The script on a one-sample file at 44100 Hz, with plugins that return
    their input and a filter that returns silence. *)
Example process_audio_with_pedalboard_example :
  AudioMastering.process_audio_with_pedalboard
    (fun _ a _ => Ok a) (fun _ _ _ => ([1%R], [1%R]))
    (fun _ _ a => Ok (Numpy.scale a 0%R)) (fun _ _ => 0%R)
    {[ "master.wav" := ([ [1%R] ], 44100%R) ]} "master.wav" "final.wav"
  = Ok (<[ "final.wav" := ([ [(1 * 1.2)%R] ], 44100%R) ]>
          {[ "master.wav" := ([ [1%R] ], 44100%R) ]}).
Proof.
  unfold AudioMastering.process_audio_with_pedalboard.
  rewrite lookup_singleton_eq.
  unfold AudioMastering.process_audio.
  cbn -[AudioMastering.stereo_widen AudioMastering.reduce_piano_volume].
  rewrite stereo_widen_scales.
  cbn -[AudioMastering.reduce_piano_volume].
  rewrite reduce_piano_volume_stopped; try reflexivity; lra.
Qed.

(** X13.  When the plugins keep the shape of the buffer, a call of
    [process_audio_with_pedalboard] that returns has read an existing input
    file and written, under the output path, a buffer of the same shape with
    the sample rate of the input; every other file is as it was. *)
Theorem process_audio_with_pedalboard_output :
  forall (plugin_process :
            Pedalboard.Plugin -> Numpy.array -> R -> result Numpy.array)
         (butter_design : nat -> R -> R -> Scipy.coefficients)
         (lfilter : list R -> list R -> Numpy.array -> result Numpy.array)
         (uninitialised : nat -> nat -> R)
         (fs fs' : AudioMastering.files) (input_path output_path : string),
    (forall p a sample_rate a',
        plugin_process p a sample_rate = Ok a' ->
        Numpy.shape a' = Numpy.shape a) ->
    AudioMastering.process_audio_with_pedalboard plugin_process
      butter_design lfilter uninitialised fs input_path output_path
    = Ok fs' ->
    exists (audio processed : Numpy.array) (sample_rate : R),
      fs !! input_path = Some (audio, sample_rate) /\
      fs' !! output_path = Some (processed, sample_rate) /\
      Numpy.shape processed = Numpy.shape audio /\
      forall path : string,
        path <> output_path -> fs' !! path = fs !! path.
Proof.
  intros pp bd lf un fs fs' inp out Hpp.
  unfold AudioMastering.process_audio_with_pedalboard.
  destruct (fs !! inp) as [[audio sr]|] eqn:Hin; [|done].
  destruct (AudioMastering.process_audio pp bd lf un audio sr)
    as [processed|] eqn:Hp; [simpl|done].
  intros [= <-]. exists audio, processed, sr. repeat split.
  - apply lookup_insert_eq.
  - by eapply process_audio_keeps_shape.
  - intros path Hne. by apply lookup_insert_ne.
Qed.

Lemma process_audio_with_pedalboard_output_witness :
  exists (audio processed : Numpy.array) (sample_rate : R),
    ({[ "master.wav" := ([ [1%R] ], 44100%R) ]} : AudioMastering.files)
      !! "master.wav" = Some (audio, sample_rate) /\
    (<[ "final.wav" := ([ [(1 * 1.2)%R] ], 44100%R) ]>
       ({[ "master.wav" := ([ [1%R] ], 44100%R) ]} : AudioMastering.files))
      !! "final.wav" = Some (processed, sample_rate) /\
    Numpy.shape processed = Numpy.shape audio /\
    forall path : string,
      path <> "final.wav" ->
      (<[ "final.wav" := ([ [(1 * 1.2)%R] ], 44100%R) ]>
         ({[ "master.wav" := ([ [1%R] ], 44100%R) ]} : AudioMastering.files))
        !! path
      = ({[ "master.wav" := ([ [1%R] ], 44100%R) ]} : AudioMastering.files)
          !! path.
Proof.
  apply (process_audio_with_pedalboard_output
           (fun _ a _ => Ok a) (fun _ _ _ => ([1%R], [1%R]))
           (fun _ _ a => Ok (Numpy.scale a 0%R)) (fun _ _ => 0%R)
           {[ "master.wav" := ([ [1%R] ], 44100%R) ]} _
           "master.wav" "final.wav").
  - intros p a sr a' [= <-]. reflexivity.
  - exact process_audio_with_pedalboard_example.
Defined.

(** ** The paths of the stems *)

Lemma append_cancel_l (a b1 b2 : string) :
  (a ++ b1)%string = (a ++ b2)%string -> b1 = b2.
Proof.
  induction a as [|c a IH]; simpl; [done|].
  intros [= H]. by apply IH.
Qed.

Lemma prefix_append (a b : string) : String.prefix a (a ++ b) = true.
Proof.
  induction a as [|c a IH]; simpl; [by destruct b|].
  destruct (Ascii.ascii_dec c c); [exact IH | done].
Qed.

Lemma join_cancel (path b1 b2 : string) :
  OsPath.startswith_sep b1 = false ->
  OsPath.startswith_sep b2 = false ->
  OsPath.join path b1 = OsPath.join path b2 -> b1 = b2.
Proof.
  unfold OsPath.join. intros -> ->.
  destruct (String.eqb path "" || OsPath.endswith_sep path); intros H.
  - by apply append_cancel_l in H.
  - apply append_cancel_l in H. by apply (append_cancel_l "/") in H.
Qed.

Lemma join_prefix (path b : string) :
  OsPath.startswith_sep b = false ->
  String.prefix path (OsPath.join path b) = true.
Proof.
  unfold OsPath.join. intros ->.
  destruct (String.eqb path "" || OsPath.endswith_sep path);
    apply prefix_append.
Qed.

Lemma stem_files_lookup (output_path k v : string) :
  (list_to_map
     (map (fun kv => (kv.1, OsPath.join output_path kv.2))
          AudioSplitter.stem_files) : gmap string string) !! k = Some v <->
  exists name, (k, name) ∈ AudioSplitter.stem_files /\
               v = OsPath.join output_path name.
Proof.
  split.
  - intros H. apply (elem_of_list_to_map_2 (M := gmap string)) in H.
    apply list_elem_of_fmap in H as ([k' name] & [= -> ->] & Hin).
    by exists name.
  - intros (name & Hin & ->).
    apply (elem_of_list_to_map_1 (M := gmap string)).
    + apply (bool_decide_unpack _). vm_compute. exact I.
    + apply list_elem_of_fmap. by exists (k, name).
Qed.

Lemma stem_files_checked (check : string -> string -> bool) (k name : string) :
  forallb (fun kv => check kv.1 kv.2) AudioSplitter.stem_files = true ->
  (k, name) ∈ AudioSplitter.stem_files -> check k name = true.
Proof.
  intros Hall Hin. rewrite forallb_forall in Hall.
  apply list_elem_of_In in Hin. apply (Hall _ Hin).
Qed.

(** X14.  When the separation returns, [separate_audio] returns a
    dictionary with exactly the keys vocals, accompaniment, bass, drums and
    piano, whatever the number of stems of the splitter; every path in it
    starts with the output path, and no two keys have the same path. *)
Theorem separate_audio_paths :
  forall (separate_to_file : Z -> string -> string -> result unit)
         (stems : Z) (input_path output_path : string)
         (d : gmap string string),
    AudioSplitter.separate_audio separate_to_file stems input_path
      output_path = Ok d ->
    (forall k : string,
       is_Some (d !! k) <->
       k ∈ ["vocals"; "accompaniment"; "bass"; "drums"; "piano"]) /\
    (forall k v : string,
       d !! k = Some v -> String.prefix output_path v = true) /\
    (forall k1 k2 v : string,
       d !! k1 = Some v -> d !! k2 = Some v -> k1 = k2).
Proof.
  intros sep stems inp out d. unfold AudioSplitter.separate_audio.
  destruct (sep stems inp out); [simpl|done]. intros [= <-].
  split; [|split].
  - intros k. split.
    + intros [v Hv]. apply stem_files_lookup in Hv as (name & Hin & _).
      change ["vocals"; "accompaniment"; "bass"; "drums"; "piano"]
        with (AudioSplitter.stem_files.*1).
      apply list_elem_of_fmap. by exists (k, name).
    + change ["vocals"; "accompaniment"; "bass"; "drums"; "piano"]
        with (AudioSplitter.stem_files.*1).
      intros Hk. apply list_elem_of_fmap in Hk as ([k' name] & -> & Hin).
      exists (OsPath.join out name). apply stem_files_lookup. by exists name.
  - intros k v Hv. apply stem_files_lookup in Hv as (name & Hin & ->).
    apply join_prefix.
    apply (stem_files_checked (fun _ n => negb (OsPath.startswith_sep n)))
      in Hin; [|reflexivity].
    by apply negb_true_iff in Hin.
  - intros k1 k2 v H1 H2.
    apply stem_files_lookup in H1 as (n1 & Hin1 & ->).
    apply stem_files_lookup in H2 as (n2 & Hin2 & E).
    pose proof (stem_files_checked
      (fun _ n => negb (OsPath.startswith_sep n)) _ _ eq_refl Hin1) as S1.
    pose proof (stem_files_checked
      (fun _ n => negb (OsPath.startswith_sep n)) _ _ eq_refl Hin2) as S2.
    apply negb_true_iff in S1, S2.
    apply (join_cancel out n1 n2 S1 S2) in E. subst n2.
    pose proof (stem_files_checked
      (fun k n =>
         forallb (fun kv => implb (String.eqb kv.2 n) (String.eqb kv.1 k))
                 AudioSplitter.stem_files) _ _ eq_refl Hin1) as Hk.
    rewrite forallb_forall in Hk.
    apply list_elem_of_In in Hin2. specialize (Hk _ Hin2). simpl in Hk.
    rewrite String.eqb_refl in Hk. simpl in Hk.
    by apply String.eqb_eq in Hk.
Qed.

Lemma separate_audio_paths_witness :
  let d : gmap string string :=
    list_to_map
      [ ("vocals", "output/song/vocals.wav");
        ("accompaniment", "output/song/other.wav");
        ("bass", "output/song/bass.wav");
        ("drums", "output/song/drums.wav");
        ("piano", "output/song/piano.wav") ] in
  (forall k : string,
     is_Some (d !! k) <->
     k ∈ ["vocals"; "accompaniment"; "bass"; "drums"; "piano"]) /\
  (forall k v : string,
     d !! k = Some v -> String.prefix "output/song" v = true) /\
  (forall k1 k2 v : string,
     d !! k1 = Some v -> d !! k2 = Some v -> k1 = k2).
Proof.
  intros d.
  apply (separate_audio_paths (fun _ _ _ => Ok tt) 5 "song.mp3" "output/song").
  reflexivity.
Defined.

Example join_examples :
  OsPath.join "output" "vocals.wav" = "output/vocals.wav" /\
  OsPath.join "output/" "vocals.wav" = "output/vocals.wav" /\
  OsPath.join "" "vocals.wav" = "vocals.wav" /\
  OsPath.join "output" "/tmp/x.wav" = "/tmp/x.wav".
Proof. repeat split; reflexivity. Qed.

(** X15.  The three stages of the script composed.  With a positive sample
    rate, [process_audio] returns only above 4000 Hz, and what it returns is
    the buffer [b] that the pedalboard returned, scaled by 1.2, minus
    [10 ** (-18 / 20)] times what [lfilter] returns for that scaled buffer,
    with the coefficients designed for the band 200..2000 Hz over the
    Nyquist frequency. *)
Theorem process_audio_returns :
  forall (plugin_process :
            Pedalboard.Plugin -> Numpy.array -> R -> result Numpy.array)
         (butter_design : nat -> R -> R -> Scipy.coefficients)
         (lfilter : list R -> list R -> Numpy.array -> result Numpy.array)
         (uninitialised : nat -> nat -> R)
         (audio out : Numpy.array) (sample_rate : R),
    (0 < sample_rate)%R ->
    AudioMastering.process_audio plugin_process butter_design lfilter
      uninitialised audio sample_rate = Ok out ->
    (4000 < sample_rate)%R /\
    exists b filtered : Numpy.array,
      let nyquist := (0.5 * sample_rate)%R in
      let coeffs :=
        butter_design 1%nat (200 / nyquist)%R (2000 / nyquist)%R in
      Pedalboard.call plugin_process AudioMastering.board audio sample_rate
      = Ok b /\
      lfilter coeffs.1 coeffs.2 (Numpy.scale b 1.2%R) = Ok filtered /\
      out = zip_with (zip_with Rminus) (Numpy.scale b 1.2%R)
              (Numpy.scale filtered (Rpower 10 (-18 / 20))).
Proof.
  intros pp bd lf un audio out sr Hsr.
  unfold AudioMastering.process_audio.
  destruct (Pedalboard.call pp AudioMastering.board audio sr) as [b|];
    [simpl|done].
  rewrite stereo_widen_scales. simpl. intros H.
  destruct (reduce_piano_volume_returns bd lf _ _ _ _ _ _ Hsr H)
    as ((H0 & H1 & H2) & filtered & Hf & _ & -> & _).
  split; [lra|]. by exists b, filtered.
Qed.

Lemma process_audio_returns_witness :
  (4000 < 44100)%R /\
  exists b filtered : Numpy.array,
    Pedalboard.call (fun _ a _ => Ok a) AudioMastering.board [ [1%R] ]
      44100%R = Ok b /\
    Ok (Numpy.scale (Numpy.scale b 1.2%R) 0%R) = Ok filtered /\
    [ [(1 * 1.2 - 1 * 1.2 * 0 * Rpower 10 (-18 / 20))%R] ]
    = zip_with (zip_with Rminus) (Numpy.scale b 1.2%R)
        (Numpy.scale filtered (Rpower 10 (-18 / 20))).
Proof.
  apply (process_audio_returns
           (fun _ a _ => Ok a) (fun _ _ _ => ([1%R], [1%R]))
           (fun _ _ a => Ok (Numpy.scale a 0%R)) (fun _ _ => 0%R)
           [ [1%R] ] _ 44100%R).
  - lra.
  - unfold AudioMastering.process_audio.
    cbn -[AudioMastering.stereo_widen AudioMastering.reduce_piano_volume].
    rewrite stereo_widen_scales.
    cbn -[AudioMastering.reduce_piano_volume].
    rewrite (reduce_piano_volume_valid _ _ _
               (Numpy.scale [ [(1 * 1.2)%R] ] 0%R));
      try reflexivity; lra.
Defined.
